(** * Image-to-PDF: the page layout computed by [generatePdf]

    A shallow embedding of the TypeScript sources

    - [types.ts]: [UploadedImage], [PageSize], [PageOrientation], [ImageFit],
      [PdfSettings];
    - [components/ImageUploader.tsx]: [handleFiles];
    - [App.tsx]: [handleUpload], the image [onload] callback and
      [DEFAULT_SETTINGS];
    - [utils/pdfUtils.ts]: [generatePdf] (the last module of
      [services/geminiService.ts] in the source tree);

    together with the properties the specification states about them.

    ** Numbers

    Every quantity [generatePdf] computes is a JavaScript [number].  The code
    is embedded once, over an interface [JsNumber] of the operations it uses
    ([* / + -], [>], [<] and numeric literals), and read in two ways:

    - [exact]: rationals extended with [+Infinity], [-Infinity] and [NaN],
      following IEEE 754 for the special values, without rounding and without
      a sign on zero.  General theorems about the measurements are proved
      here.
    - [float]: binary64, the kernel's primitive floats, bit for bit what a
      JavaScript engine computes.  Concrete runs are evaluated here, and
      where rounding changes a conclusion the binary64 run is given beside
      the exact one.

    What only follows the control flow is proved for any [JsNumber]. *)

From Stdlib Require Import QArith Qreduction Lqa Lia.
From Stdlib Require Import ZArith NArith Bool List Permutation Ascii String.
From Stdlib Require Import Floats Uint63.
Import ListNotations.

Close Scope Q_scope.
Set Implicit Arguments.

(* ================================================================== *)
(** ** The number interface *)

Class JsNumber (T : Type) : Type := {
  ofQ : Q -> T;          (* a decimal literal, or an integer-valued input *)
  add : T -> T -> T;
  sub : T -> T -> T;
  mul : T -> T -> T;
  div : T -> T -> T;
  gt  : T -> T -> bool;
  lt  : T -> T -> bool
}.

Declare Scope js_scope.
Delimit Scope js_scope with js.
Infix "+"  := add : js_scope.
Infix "-"  := sub : js_scope.
Infix "*"  := mul : js_scope.
Infix "/"  := div : js_scope.
Infix ">?" := gt (at level 70, no associativity) : js_scope.
Infix "<?" := lt : js_scope.

(** Pixel sizes are non-negative integers (see [UploadedImage]). *)
Definition ofN {T} `{JsNumber T} (n : N) : T := ofQ (inject_Z (Z.of_N n)).

(* ------------------------------------------------------------------ *)
(** *** Exact arithmetic with the IEEE special values *)

Inductive exact : Type :=
| Fin (q : Q)
| PInf
| NInf
| NaN.

Module Exact.

Definition Qltb (a b : Q) : bool := negb (Qle_bool b a).
Definition Qzero (a : Q) : bool := Qeq_bool a 0.

(** [inf_of b] is the infinity with the sign [b] ([true] for plus). *)
Definition inf_of (positive : bool) : exact := if positive then PInf else NInf.

Definition add (x y : exact) : exact :=
  match x, y with
  | NaN, _ | _, NaN => NaN
  | Fin a, Fin b => Fin (Qred (a + b))
  | PInf, NInf | NInf, PInf => NaN
  | PInf, _ | _, PInf => PInf
  | NInf, _ | _, NInf => NInf
  end.

Definition sub (x y : exact) : exact :=
  match x, y with
  | NaN, _ | _, NaN => NaN
  | Fin a, Fin b => Fin (Qred (a - b))
  | PInf, PInf | NInf, NInf => NaN
  | PInf, _ | _, NInf => PInf
  | NInf, _ | _, PInf => NInf
  end.

(** An infinity times a finite [a]: [NaN] at zero, else the sign product. *)
Definition mul_inf (positive : bool) (a : Q) : exact :=
  if Qzero a then NaN else inf_of (Bool.eqb positive (Qltb 0 a)).

Definition mul (x y : exact) : exact :=
  match x, y with
  | NaN, _ | _, NaN => NaN
  | Fin a, Fin b => Fin (Qred (a * b))
  | PInf, Fin a | Fin a, PInf => mul_inf true a
  | NInf, Fin a | Fin a, NInf => mul_inf false a
  | PInf, PInf | NInf, NInf => PInf
  | PInf, NInf | NInf, PInf => NInf
  end.

(** Division.  A finite zero divisor is [+0]: the zeros this program divides
    by are an image height (a non-negative integer), a difference [a - a]
    and a quotient [0 / h] with [h > 0], all [+0] in IEEE arithmetic. *)
Definition div (x y : exact) : exact :=
  match x, y with
  | NaN, _ | _, NaN => NaN
  | Fin a, Fin b =>
      if Qzero b
      then (if Qzero a then NaN else inf_of (Qltb 0 a))
      else Fin (Qred (a / b))
  | Fin _, PInf | Fin _, NInf => Fin 0
  | PInf, Fin b => inf_of (negb (Qltb b 0))
  | NInf, Fin b => inf_of (Qltb b 0)
  | PInf, PInf | PInf, NInf | NInf, PInf | NInf, NInf => NaN
  end.

(** Comparisons are [false] as soon as one side is [NaN]. *)
Definition gt (x y : exact) : bool :=
  match x, y with
  | NaN, _ | _, NaN => false
  | Fin a, Fin b => Qltb b a
  | PInf, PInf => false
  | PInf, _ => true
  | _, PInf => false
  | NInf, _ => false
  | Fin _, NInf => true
  end.

Definition lt (x y : exact) : bool := gt y x.

(** [x >= y], as JavaScript evaluates it. *)
Definition ge (x y : exact) : bool :=
  match x, y with
  | NaN, _ | _, NaN => false
  | Fin a, Fin b => Qle_bool b a
  | PInf, _ => true
  | _, NInf => true
  | _, _ => false
  end.


End Exact.

#[export] Instance exact_number : JsNumber exact := {|
  ofQ q := Fin (Qred q);
  add := Exact.add;
  sub := Exact.sub;
  mul := Exact.mul;
  div := Exact.div;
  gt  := Exact.gt;
  lt  := Exact.lt
|}.

(* ------------------------------------------------------------------ *)
(** *** binary64 *)

Module Binary64.

Definition ofZ (z : Z) : float :=
  match z with
  | Z0 => PrimFloat.zero
  | Zpos _ => PrimFloat.of_uint63 (Uint63.of_Z z)
  | Zneg p => PrimFloat.opp (PrimFloat.of_uint63 (Uint63.of_Z (Zpos p)))
  end.

(** The double nearest to [n/d]: both are converted exactly (below 2^53,
    which covers every literal of the program) and the division rounds
    once, which is how a decimal literal is read. *)
Definition ofQ (q : Q) : float :=
  PrimFloat.div (ofZ (Qnum q)) (ofZ (Zpos (Qden q))).

Definition gt (x y : float) : bool := PrimFloat.ltb y x.

End Binary64.

#[export] Instance float_number : JsNumber float := {|
  ofQ := Binary64.ofQ;
  add := PrimFloat.add;
  sub := PrimFloat.sub;
  mul := PrimFloat.mul;
  div := PrimFloat.div;
  gt  := Binary64.gt;
  lt  := PrimFloat.ltb
|}.

(* ================================================================== *)
(** ** types.ts *)

(** A browser [File]: of its content only the declared MIME type matters
    here; the bytes stay opaque. *)
Record File : Type := {
  file_name : string;
  file_type : string
}.

(** [URL.createObjectURL(file)]: a handle through which the holder reads the
    bytes of [file], unchanged. *)
Record ObjectURL : Type := createObjectURL { blob : File }.

(** [width] and [height] only ever hold the initial [0] or the
    [HTMLImageElement.width]/[height] of the decoded image (see
    [handleUpload] and [onload]): non-negative integers. *)
Record UploadedImage : Type := {
  id : string;
  file : File;
  previewUrl : ObjectURL;
  width : N;
  height : N;
  name : string;
  type : string
}.

Inductive PageSize : Type := A4 | LETTER | FIT_IMAGE.
Inductive PageOrientation : Type := PORTRAIT | LANDSCAPE | AUTO.
Inductive ImageFit : Type := CONTAIN | FILL | ORIGINAL.

Record PdfSettings : Type := {
  pageSize : PageSize;
  orientation : PageOrientation;
  margin : Q;                      (* in mm *)
  imageFit : ImageFit;
  filename : string
}.

Definition isFitImage (s : PageSize) : bool :=
  match s with FIT_IMAGE => true | _ => false end.

(* ================================================================== *)
(** ** components/ImageUploader.tsx and App.tsx: how images arrive *)

Open Scope string_scope.
Open Scope list_scope.

Definition validImageTypes : list string :=
  ["image/jpeg"; "image/png"; "image/webp"; "image/jpg"].

Definition includes (l : list string) (s : string) : bool :=
  existsb (String.eqb s) l.

(** [handleFiles]: the files of a valid type are passed on to [onUpload];
    [None] is the alert shown when none is left. *)
Definition handleFiles (files : list File) : option (list File) :=
  let validFiles := filter (fun f => includes validImageTypes (file_type f)) files in
  match validFiles with
  | [] => None
  | _ => Some validFiles
  end.

(** [handleUpload].  [fresh k] stands for the random identifier drawn for the
    [k]-th file.  The pixel size is unknown until the image is decoded. *)
Definition newImage (ident : string) (f : File) : UploadedImage := {|
  id := ident;
  file := f;
  previewUrl := createObjectURL f;
  width := 0;
  height := 0;
  name := file_name f;
  type := file_type f
|}.

Fixpoint newImages (fresh : nat -> string) (k : nat) (files : list File)
  : list UploadedImage :=
  match files with
  | [] => []
  | f :: rest => newImage (fresh k) f :: newImages fresh (S k) rest
  end.

Definition handleUpload (fresh : nat -> string) (prev : list UploadedImage)
    (files : list File) : list UploadedImage :=
  prev ++ newImages fresh 0 files.

(** The [img.onload] callback of [handleUpload]. *)
Definition onload (ident : string) (w h : N) (prev : list UploadedImage)
  : list UploadedImage :=
  map (fun p =>
         if String.eqb (id p) ident
         then {| id := id p; file := file p; previewUrl := previewUrl p;
                 width := w; height := h; name := name p; type := type p |}
         else p) prev.

(* ================================================================== *)
(** ** The PDF writer, as far as [generatePdf] drives it

    jsPDF is an external library.  A document is described by what
    [generatePdf] asked of it: the pages in order, each with the format and
    orientation it was created with and the images drawn on it.  Drawing goes
    to the current page, which is the page added last.

    This is a record of calls: here every call returns.  jsPDF's own
    [addImage] throws on some arguments (coordinates that are not numbers);
    [generatePdfWith] below is the run with a writer that refuses calls. *)

Inductive Orient : Type := O_p | O_l.       (* "p" | "l" *)

Definition Orient_eqb (a b : Orient) : bool :=
  match a, b with O_p, O_p | O_l, O_l => true | _, _ => false end.

Section Writer.

Context {T : Type}.

Inductive Format : Type :=
| FormatName (s : string)                  (* 'a4', 'letter' *)
| FormatSize (w h : T).                    (* [width, height] in mm *)

(** One [addImage(imageData, format, x, y, w, h, undefined, 'NONE')]. *)
Record Drawn : Type := {
  imageData : ObjectURL;
  imageFormat : string;
  dx : T; dy : T; dw : T; dh : T
}.

Record Page : Type := {
  page_format : Format;
  page_orientation : Orient;
  page_images : list Drawn
}.

Definition jsPDF : Type := list Page.

(** [new jsPDF({orientation, unit: 'mm', format, compress: false})] starts
    with one page. *)
Definition new_jsPDF (o : Orient) (f : Format) : jsPDF :=
  [ {| page_format := f; page_orientation := o; page_images := [] |} ].

Definition addPage (f : Format) (o : Orient) (doc : jsPDF) : jsPDF :=
  doc ++ [ {| page_format := f; page_orientation := o; page_images := [] |} ].

(** Pages are numbered from 1. *)
Definition deletePage (n : nat) (doc : jsPDF) : jsPDF :=
  firstn (n - 1) doc ++ skipn n doc.

Definition draw (d : Drawn) (pg : Page) : Page :=
  {| page_format := page_format pg;
     page_orientation := page_orientation pg;
     page_images := page_images pg ++ [d] |}.

Fixpoint onLastPage (f : Page -> Page) (doc : jsPDF) : jsPDF :=
  match doc with
  | [] => []
  | [pg] => [f pg]
  | pg :: rest => pg :: onLastPage f rest
  end.

Definition addImage (d : Drawn) (doc : jsPDF) : jsPDF :=
  onLastPage (draw d) doc.

End Writer.

Arguments Format : clear implicits.
Arguments Drawn : clear implicits.
Arguments Page : clear implicits.
Arguments jsPDF : clear implicits.

(* ================================================================== *)
(** ** utils/pdfUtils.ts: [generatePdf] *)

Section GeneratePdf.

Context {T : Type} `{JsNumber T}.
Local Open Scope js_scope.

(** A4 and Letter dimensions in mm, and the pixel size at 96 dpi. *)
Definition A4_WIDTH : T := ofQ 210.
Definition A4_HEIGHT : T := ofQ 297.
Definition LETTER_WIDTH : T := ofQ (2159 # 10).
Definition LETTER_HEIGHT : T := ofQ (2794 # 10).
Definition pxToMm : T := ofQ (264583 # 1000000).

(** The locals [pageWidth], [pageHeight], [targetFormat], [orientation]. *)
Record PageSetup : Type := {
  pageWidth : T;
  pageHeight : T;
  targetFormat : Format T;
  pageOrientation : Orient
}.

(** The locals [x], [y], [w], [h]. *)
Record Rect : Type := { x : T; y : T; w : T; h : T }.

(** "Logic to determine page dimensions": the page size before the
    orientation is looked at; [orientation] starts as ["p"]. *)
Definition pageDimensions (settings : PdfSettings) (img : UploadedImage)
  : PageSetup :=
  match pageSize settings with
  | FIT_IMAGE =>
      let pageWidth := ofN (width img) * pxToMm in
      let pageHeight := ofN (height img) * pxToMm in
      {| pageWidth := pageWidth; pageHeight := pageHeight;
         targetFormat := FormatSize pageWidth pageHeight;
         pageOrientation := O_p |}
  | LETTER =>
      {| pageWidth := LETTER_WIDTH; pageHeight := LETTER_HEIGHT;
         targetFormat := FormatName "letter"; pageOrientation := O_p |}
  | A4 =>
      {| pageWidth := A4_WIDTH; pageHeight := A4_HEIGHT;
         targetFormat := FormatName "a4"; pageOrientation := O_p |}
  end.

Definition swapped (o : Orient) (d : PageSetup) : PageSetup :=
  {| pageWidth := pageHeight d; pageHeight := pageWidth d;
     targetFormat := targetFormat d; pageOrientation := o |}.

Definition oriented (o : Orient) (d : PageSetup) : PageSetup :=
  {| pageWidth := pageWidth d; pageHeight := pageHeight d;
     targetFormat := targetFormat d; pageOrientation := o |}.

(** "Determine Orientation". *)
Definition determineOrientation (settings : PdfSettings) (img : UploadedImage)
    (d : PageSetup) : PageSetup :=
  match orientation settings with
  | AUTO =>
      let o := if ofN (width img) >? ofN (height img) then O_l else O_p in
      (* Swap page dimensions if landscape and using standard formats *)
      if negb (isFitImage (pageSize settings)) && Orient_eqb o O_l
      then swapped o d
      else oriented o d
  | fixed =>
      let o := match fixed with LANDSCAPE => O_l | _ => O_p end in
      if negb (isFitImage (pageSize settings)) && Orient_eqb o O_l
      then (* Force landscape dimensions *)
           if pageWidth d <? pageHeight d then swapped o d else oriented o d
      else oriented o d
  end.

(** "Add page": a new page for every image after the first; for the first
    image the page the document started with is kept or replaced. *)
Definition preparePage (settings : PdfSettings) (i : nat) (img : UploadedImage)
    (d : PageSetup) (doc : jsPDF T) : jsPDF T :=
  if Nat.ltb 0 i then addPage (targetFormat d) (pageOrientation d) doc
  else if isFitImage (pageSize settings) then
    let w := ofN (width img) * pxToMm in
    let h := ofN (height img) * pxToMm in
    addPage (FormatSize w h) (if w >? h then O_l else O_p) (deletePage 1 doc)
  else
    (* If orientation doesn't match default 'p', rotate page 1 *)
    if negb (Orient_eqb (pageOrientation d) O_p)
    then addPage (targetFormat d) (pageOrientation d) (deletePage 1 doc)
    else doc.

(** "Drawing the image": the rectangle handed to [addImage]. *)
Definition placeImage (settings : PdfSettings) (img : UploadedImage)
    (d : PageSetup) : Rect :=
  let margin := ofQ (margin settings) in
  let drawWidth := pageWidth d - (margin * ofQ 2) in
  let drawHeight := pageHeight d - (margin * ofQ 2) in
  if isFitImage (pageSize settings) then
    (* Fill the whole page *)
    {| x := ofQ 0; y := ofQ 0; w := pageWidth d; h := pageHeight d |}
  else match imageFit settings with
  | CONTAIN =>
      (* Scale to fit maintaining aspect ratio *)
      let imgRatio := ofN (width img) / ofN (height img) in
      let pageRatio := drawWidth / drawHeight in
      if imgRatio >? pageRatio then
        (* Image is wider than print area *)
        let h := drawWidth / imgRatio in
        {| x := margin;
           y := margin + (drawHeight - h) / ofQ 2;   (* Center vertically *)
           w := drawWidth; h := h |}
      else
        (* Image is taller than print area *)
        let w := drawHeight * imgRatio in
        {| x := margin + (drawWidth - w) / ofQ 2;    (* Center horizontally *)
           y := margin;
           w := w; h := drawHeight |}
  | _ =>
      (* ImageFit.FILL uses initialized w/h which stretches *)
      {| x := margin; y := margin; w := drawWidth; h := drawHeight |}
  end.

(** What one iteration computed for image [i]: the specification's
    [PageLayout]. *)
Record PageLayout : Type := {
  sourceImageIndex : nat;
  setup : PageSetup;
  rect : Rect
}.

Definition pageWidthMm (l : PageLayout) : T := pageWidth (setup l).
Definition pageHeightMm (l : PageLayout) : T := pageHeight (setup l).
Definition imageX (l : PageLayout) : T := x (rect l).
Definition imageY (l : PageLayout) : T := y (rect l).
Definition imageWidthMm (l : PageLayout) : T := w (rect l).
Definition imageHeightMm (l : PageLayout) : T := h (rect l).

Definition layoutOf (settings : PdfSettings) (i : nat) (img : UploadedImage)
  : PageLayout :=
  let d := determineOrientation settings img (pageDimensions settings img) in
  {| sourceImageIndex := i; setup := d; rect := placeImage settings img d |}.

Definition drawn (img : UploadedImage) (r : Rect) : Drawn T := {|
  imageData := previewUrl img;
  imageFormat := if String.eqb (type img) "image/png" then "PNG" else "JPEG";
  dx := x r; dy := y r; dw := w r; dh := h r
|}.

(** The loop state: the document, and the layouts in the order computed. *)
Record State : Type := {
  doc : jsPDF T;
  layouts : list PageLayout
}.

(** The body of the [for] loop. *)
Definition iteration (settings : PdfSettings) (i : nat) (img : UploadedImage)
    (st : State) : State :=
  let l := layoutOf settings i img in
  let doc1 := preparePage settings i img (setup l) (doc st) in
  {| doc := addImage (drawn img (rect l)) doc1;
     layouts := layouts st ++ [l] |}.

(** [for (let i = ...; i < images.length; i++)], from index [i] on. *)
Fixpoint loop (settings : PdfSettings) (i : nat) (images : list UploadedImage)
    (st : State) : State :=
  match images with
  | [] => st
  | img :: rest => loop settings (S i) rest (iteration settings i img st)
  end.

(** What a call leaves behind: the layouts, and the document saved under a
    file name; [saved = None] when no document was written. *)
Record Outcome : Type := {
  output : list PageLayout;
  saved : option (jsPDF T * string)
}.

Definition generatePdf (images : list UploadedImage) (settings : PdfSettings)
  : Outcome :=
  match images with
  | [] => {| output := []; saved := None |}       (* return; *)
  | _ :: _ =>
      let st := loop settings 0 images
                  {| doc := new_jsPDF O_p (FormatName "a4"); layouts := [] |} in
      {| output := layouts st;
         saved := Some (doc st,
                        if String.eqb (filename settings) ""
                        then "images.pdf" else filename settings) |}
  end.

End GeneratePdf.

Arguments PageSetup : clear implicits.
Arguments Rect : clear implicits.
Arguments PageLayout : clear implicits.
Arguments State : clear implicits.
Arguments Outcome : clear implicits.

(* ================================================================== *)
(** ** What the properties are stated with *)

Section Views.

Context {T : Type} `{JsNumber T}.

Implicit Types (settings : PdfSettings) (img : UploadedImage).

(** The page an image after the first one ends up on. *)
Definition laterPage settings img : Page T :=
  let l := layoutOf settings 0 img in
  {| page_format := targetFormat (setup l);
     page_orientation := pageOrientation (setup l);
     page_images := [drawn img (rect l)] |}.

(** The page of the first image: a page of the image's size in
    [FIT_IMAGE] mode, a page of the chosen format when the orientation is
    landscape, and otherwise the page the document was created with. *)
Definition firstPage settings img : Page T :=
  let l := layoutOf settings 0 img in
  let fit_w := mul (ofN (width img)) pxToMm in
  let fit_h := mul (ofN (height img)) pxToMm in
  {| page_format :=
       if isFitImage (pageSize settings) then FormatSize fit_w fit_h
       else match pageOrientation (setup l) with
            | O_l => targetFormat (setup l)
            | O_p => FormatName "a4"
            end;
     page_orientation :=
       if isFitImage (pageSize settings)
       then (if gt fit_w fit_h then O_l else O_p)
       else pageOrientation (setup l);
     page_images := [drawn img (rect l)] |}.

(** The six measurements of a layout: page width and height, and the
    image rectangle. *)
Definition geometry (l : PageLayout T) : T * T * (T * T * T * T) :=
  (pageWidthMm l, pageHeightMm l,
   (imageX l, imageY l, imageWidthMm l, imageHeightMm l)).

(** The drawable area of a layout's page and the two ratios compared by the
    CONTAIN fit, with the program's own operations. *)
Definition drawableWidth settings (l : PageLayout T) : T :=
  sub (pageWidthMm l) (mul (ofQ (margin settings)) (ofQ 2)).

Definition drawableHeight settings (l : PageLayout T) : T :=
  sub (pageHeightMm l) (mul (ofQ (margin settings)) (ofQ 2)).

Definition imageRatio img : T := div (ofN (width img)) (ofN (height img)).


(** The MIME type of the bytes behind the URL given to [addImage]. *)
Definition payloadType (d : Drawn T) : string := file_type (blob (imageData d)).

(** Every image drawn into a document, page by page. *)
Definition allDrawn (pdf : jsPDF T) : list (Drawn T) :=
  flat_map (@page_images T) pdf.

End Views.

(** An exact number that is finite, with the value of the rational [q].
    Every finite number the program computes is kept in lowest terms, so
    two of them with equal values are equal. *)
Definition valued (q : Q) (x : exact) : Prop := x = Fin (Qred q).

Definition QofN (n : N) : Q := inject_Z (Z.of_N n).


(** [pixels * 25.4 / 96], the conversion the specification names. *)
Definition mmAt96dpi {T} `{JsNumber T} (pixels : N) : T :=
  div (mul (ofN pixels) (ofQ (254 # 10))) (ofQ 96).

(** FIT_IMAGE, for the layout [l] of the image [img]: the page measures the
    pixel size times 0.264583, and the image covers the page.  The page
    falls short of [pixels * 25.4 / 96] by [pixels / 3000000] mm. *)
Definition PageIsImage (img : UploadedImage) (l : PageLayout exact) : Prop :=
  pageWidthMm l = mul (ofN (width img)) (ofQ (264583 # 1000000))
  /\ pageHeightMm l = mul (ofN (height img)) (ofQ (264583 # 1000000))
  /\ imageX l = ofQ 0 /\ imageY l = ofQ 0
  /\ imageWidthMm l = pageWidthMm l /\ imageHeightMm l = pageHeightMm l
  /\ sub (mmAt96dpi (width img)) (pageWidthMm l)
     = ofQ (QofN (width img) / 3000000)
  /\ sub (mmAt96dpi (height img)) (pageHeightMm l)
     = ofQ (QofN (height img) / 3000000).

(** The orientation of the layout [l] of the image [img], and the page size
    that goes with it on a standard page. *)
Definition OrientedPage (settings : PdfSettings) (img : UploadedImage)
    (l : PageLayout exact) : Prop :=
  (orientation settings = AUTO ->
     pageOrientation (setup l)
     = if (height img <? width img)%N then O_l else O_p)
  /\ (pageSize settings = A4 ->
        match pageOrientation (setup l) with
        | O_l => pageWidthMm l = A4_HEIGHT /\ pageHeightMm l = A4_WIDTH
        | O_p => pageWidthMm l = A4_WIDTH /\ pageHeightMm l = A4_HEIGHT
        end)
  /\ (pageSize settings = LETTER ->
        match pageOrientation (setup l) with
        | O_l => pageWidthMm l = LETTER_HEIGHT /\ pageHeightMm l = LETTER_WIDTH
        | O_p => pageWidthMm l = LETTER_WIDTH /\ pageHeightMm l = LETTER_HEIGHT
        end)
  /\ (pageSize settings <> FIT_IMAGE ->
        gt (pageWidthMm l) (pageHeightMm l)
        = Orient_eqb (pageOrientation (setup l)) O_l).

(* ================================================================== *)
(** ** Inputs used in the examples *)

Definition fileOf (mime : string) : File :=
  {| file_name := "scan"; file_type := mime |}.

(** An image as [handleUpload] and [onload] leave it. *)
Definition imageOf (mime : string) (w h : N) : UploadedImage :=
  {| id := "k3x9"; file := fileOf mime; previewUrl := createObjectURL (fileOf mime);
     width := w; height := h; name := "scan"; type := mime |}.

Definition settingsOf (size : PageSize) (o : PageOrientation) (m : Q)
    (fit : ImageFit) : PdfSettings :=
  {| pageSize := size; orientation := o; margin := m; imageFit := fit;
     filename := "images.pdf" |}.

(** [DEFAULT_SETTINGS] of App.tsx. *)
Definition DEFAULT_SETTINGS : PdfSettings := settingsOf A4 AUTO 10 CONTAIN.

(** The concrete scenario of the specification: one 3000 x 2000 JPEG on
    portrait A4 with a margin of 10 mm, CONTAIN fit. *)
Definition scenario_image : UploadedImage := imageOf "image/jpeg" 3000 2000.
Definition scenario_settings : PdfSettings := settingsOf A4 PORTRAIT 10 CONTAIN.

(** A file just dropped on the page: [handleUpload] has run, [onload] has
    not, so its pixel size is still 0 x 0. *)
Definition unprobed_images : list UploadedImage :=
  handleUpload (fun _ => "k3x9") [] [fileOf "image/jpeg"].

(** A WebP file, uploaded and decoded as 800 x 600. *)
Definition webp_images : list UploadedImage :=
  match handleFiles [fileOf "image/webp"] with
  | Some validFiles =>
      onload "k3x9" 800 600 (handleUpload (fun _ => "k3x9") [] validFiles)
  | None => []
  end.

(** [|a - b| < tol], with the program's operations. *)
Definition within {T} `{JsNumber T} (tol a b : T) : bool :=
  lt (sub a b) tol && lt (sub b a) tol.

(* ================================================================== *)
(** ** components/ImageUploader.tsx: drop and file-input events *)

(** What an event led to: nothing, the alert, or a call of [onUpload]. *)
Inductive UploaderOutcome : Type :=
| Ignored
| Alerted
| Uploaded (validFiles : list File).

(** [handleDrop]: [e.dataTransfer.files] may be missing ([None]) or empty, and
    then nothing happens; otherwise [handleFiles] decides. *)
Definition handleDrop (files : option (list File)) : UploaderOutcome :=
  match files with
  | Some (f :: rest) =>
      match handleFiles (f :: rest) with
      | Some validFiles => Uploaded validFiles
      | None => Alerted
      end
  | _ => Ignored
  end.

(** [handleChange] does the same with [e.target.files]. *)
Definition handleChange (files : option (list File)) : UploaderOutcome :=
  match files with
  | Some (f :: rest) =>
      match handleFiles (f :: rest) with
      | Some validFiles => Uploaded validFiles
      | None => Alerted
      end
  | _ => Ignored
  end.

(* ================================================================== *)
(** ** App.tsx: removing and reordering images, the export button *)

(** [removeImage]: the object URL of the first image found with the
    identifier is revoked, and every image with the identifier leaves the
    list. *)
Record Removal : Type := {
  revoked : option ObjectURL;
  remaining : list UploadedImage
}.

Definition removeImage (ident : string) (images : list UploadedImage) : Removal :=
  {| revoked :=
       option_map previewUrl (find (fun i => String.eqb (id i) ident) images);
     remaining := filter (fun i => negb (String.eqb (id i) ident)) images |}.

Inductive Direction : Type := left | right.

(** A JavaScript array of images: [None] is an element that is
    [undefined]. *)
Definition ImageArray : Type := list (option UploadedImage).

(** [a[i]]: [undefined] beyond the end. *)
Definition at_index (a : ImageArray) (i : nat) : option UploadedImage :=
  nth i a None.

(** [a[i] = v]: beyond the end the array grows, the gap left [undefined]. *)
Fixpoint assign (i : nat) (v : option UploadedImage) (a : ImageArray)
  : ImageArray :=
  match i, a with
  | O, [] => [v]
  | O, _ :: rest => v :: rest
  | S j, [] => None :: assign j v []
  | S j, e :: rest => e :: assign j v rest
  end.

(** [moveImage]: the list of images after the call.  The two elements are
    read first, then [newImages[index]] and [newImages[targetIndex]] are
    written in this order. *)
Definition moveImage (index : nat) (direction : Direction)
    (images : list UploadedImage) : ImageArray :=
  let newImages := map Some images in
  let targetIndex : Z :=
    match direction with
    | left => (Z.of_nat index - 1)%Z
    | right => (Z.of_nat index + 1)%Z
    end in
  if (0 <=? targetIndex)%Z && (targetIndex <? Z.of_nat (List.length newImages))%Z
  then
    let target := Z.to_nat targetIndex in
    let fromTarget := at_index newImages target in
    let fromIndex := at_index newImages index in
    assign target fromIndex (assign index fromTarget newImages)
  else newImages.

(** The "Move Up" button of row [idx] is disabled for the first row, the
    "Move Down" button for the last. *)
Definition moveDisabled (idx : nat) (direction : Direction)
    (images : list UploadedImage) : bool :=
  match direction with
  | left => Nat.eqb idx 0
  | right => (Z.of_nat idx =? Z.of_nat (List.length images) - 1)%Z
  end.

(** The "Export PDF" button. *)
Definition exportDisabled (images : list UploadedImage) (isProcessing : bool)
  : bool :=
  Nat.eqb (List.length images) 0 || isProcessing.

(** An image still is what [handleUpload] made of its file: the URL is the
    file's, and name and type are the file's. *)
Definition fromItsFile (img : UploadedImage) : Prop :=
  previewUrl img = createObjectURL (file img)
  /\ name img = file_name (file img)
  /\ type img = file_type (file img).

(** The lists of images the page can be in: what uploads, decoded sizes,
    removals and moves through the buttons make of the empty list. *)
Inductive reachable : list UploadedImage -> Prop :=
| reach_start : reachable []
| reach_upload fresh files validFiles images :
    reachable images ->
    handleFiles files = Some validFiles ->
    reachable (handleUpload fresh images validFiles)
| reach_onload ident w h images :
    reachable images ->
    reachable (onload ident w h images)
| reach_remove ident images :
    reachable images ->
    reachable (remaining (removeImage ident images))
| reach_move idx direction images images' :
    reachable images ->
    idx < List.length images ->
    moveImage idx direction images = map Some images' ->
    reachable images'.

(* ================================================================== *)
(** ** services/geminiService.ts: [generateSmartFilename]

    The texts handled here come from outside (a data URL, the reply of the
    model), so a string is a sequence of UTF-16 code units, as the regular
    expressions and [trim] of JavaScript see it. *)

Module Gemini.

Abbreviation jsString := (list N) (only parsing).

(** A string literal of the program. *)
Definition units (s : string) : jsString :=
  map N_of_ascii (list_ascii_of_string s).

Fixpoint eqb (a b : jsString) : bool :=
  match a, b with
  | [], [] => true
  | x :: a', y :: b' => N.eqb x y && eqb a' b'
  | _, _ => false
  end.

(** [s] without the prefix [p], when it starts with [p]. *)
Fixpoint stripPrefix (p s : jsString) : option jsString :=
  match p, s with
  | [], _ => Some s
  | x :: p', y :: s' => if N.eqb x y then stripPrefix p' s' else None
  | _ :: _, [] => None
  end.

Fixpoint takeWhile (f : N -> bool) (s : jsString) : jsString :=
  match s with
  | c :: rest => if f c then c :: takeWhile f rest else []
  | [] => []
  end.

Fixpoint dropWhile (f : N -> bool) (s : jsString) : jsString :=
  match s with
  | c :: rest => if f c then dropWhile f rest else s
  | [] => []
  end.

(** [[a-zA-Z]]. *)
Definition isLetter (c : N) : bool :=
  ((65 <=? c) && (c <=? 90) || (97 <=? c) && (c <=? 122))%N.

(** [base64Image.match(/^data:(image\/[a-zA-Z]+);base64,/)], the first group
    of the match.  The run of letters is the longest one: a shorter run is
    followed by a letter, not by the semicolon. *)
Definition mimeMatch (base64Image : jsString) : option jsString :=
  match stripPrefix (units "data:image/") base64Image with
  | Some rest =>
      let letters := takeWhile isLetter rest in
      match letters, stripPrefix (units ";base64,") (dropWhile isLetter rest) with
      | _ :: _, Some _ => Some (units "image/" ++ letters)
      | _, _ => None
      end
  | None => None
  end.

(** [s.replace(/^data:image\/(png|jpeg|jpg|webp);base64,/, "")]: the
    alternatives are tried in their order. *)
Fixpoint removeDataPrefix (alternatives : list string) (s : jsString) : jsString :=
  match alternatives with
  | [] => s
  | alt :: others =>
      match stripPrefix (units "data:image/" ++ units alt ++ units ";base64,") s with
      | Some rest => rest
      | None => removeDataPrefix others s
      end
  end.

Definition cleanBase64 (base64Image : jsString) : jsString :=
  removeDataPrefix ["png"; "jpeg"; "jpg"; "webp"] base64Image.

(** White space and line terminators of ECMAScript, all of them single code
    units: TAB, LF, VT, FF, CR, SP, NBSP, U+1680, U+2000 to U+200A, U+2028,
    U+2029, U+202F, U+205F, U+3000 and U+FEFF. *)
Definition isWhiteSpace (c : N) : bool :=
  ((9 <=? c) && (c <=? 13) || (c =? 32) || (c =? 160) || (c =? 5760)
   || (8192 <=? c) && (c <=? 8202) || (c =? 8232) || (c =? 8233)
   || (c =? 8239) || (c =? 8287) || (c =? 12288) || (c =? 65279))%N.

Definition trim (s : jsString) : jsString :=
  rev (dropWhile isWhiteSpace (rev (dropWhile isWhiteSpace s))).

Definition backtick : N := 96.
Definition dot : N := 46.

(** [s.replace(/`/g, '')]. *)
Definition removeBackticks (s : jsString) : jsString :=
  filter (fun c => negb (N.eqb c backtick)) s.

(** [s.replace(/^\./, '')]. *)
Definition removeLeadingDot (s : jsString) : jsString :=
  match s with
  | c :: rest => if N.eqb c dot then rest else s
  | [] => []
  end.

(** The request sent to [ai.models.generateContent]. *)
Record Request : Type := {
  model : string;
  mimeType : jsString;
  data : jsString;
  text : string;
  thinkingBudget : N
}.

Definition prompt : string :=
  "Analyze this image and suggest a concise, professional filename for a PDF document containing it. Use snake_case or kebab-case. Return ONLY the filename ending in .pdf. Do not include any explanation.".

Definition requestFor (base64Image : jsString) : Request :=
  {| model := "gemini-2.5-flash";
     mimeType := match mimeMatch base64Image with
                 | Some m => m
                 | None => units "image/jpeg"
                 end;
     data := cleanBase64 base64Image;
     text := prompt;
     thinkingBudget := 0 |}.

(** What a call ends in: a value, or an error thrown to the caller. *)
Inductive Result (A : Type) : Type :=
| Returned (a : A)
| Thrown (message : string).

Arguments Returned {A} a.
Arguments Thrown {A} message.

(** [getAiClient]: the key is [process.env.API_KEY]; without it (undefined
    or empty) the call throws.  The client is the key it was made with. *)
Definition getAiClient (API_KEY : option jsString) : Result jsString :=
  match API_KEY with
  | Some (c :: key) => Returned (c :: key)
  | _ => Thrown "API Key is missing. Please set the API_KEY environment variable."
  end.

(** What is made of [response.text]. *)
Definition filenameFrom (responseText : option jsString) : jsString :=
  match option_map trim responseText with
  | Some (c :: filename) =>
      trim (removeLeadingDot (removeBackticks (c :: filename)))
  | _ => units "document.pdf"
  end.

(** [generateSmartFilename].  [generateContent client request] is the reply
    of the service: the text of the response (possibly undefined), or the
    error it failed with.  Errors are logged and thrown again. *)
Definition generateSmartFilename (API_KEY : option jsString)
    (generateContent : jsString -> Request -> Result (option jsString))
    (base64Image : jsString) : Result jsString :=
  match getAiClient API_KEY with
  | Thrown e => Thrown e
  | Returned ai =>
      match generateContent ai (requestFor base64Image) with
      | Thrown e => Thrown e
      | Returned responseText => Returned (filenameFrom responseText)
      end
  end.

(** [FileReader.readAsDataURL] of a file, as App.tsx passes it on for the
    first image: the MIME type of the file, then its bytes in base64. *)
Definition readAsDataURL (f : File) (base64 : jsString) : jsString :=
  units "data:" ++ units (file_type f) ++ units ";base64," ++ base64.

End Gemini.

(* ================================================================== *)
(** ** Further inputs used in the examples *)

(** A PNG and a WebP file uploaded together, under the identifiers a1 and
    b2. *)
Definition uploaded_pair : list UploadedImage :=
  handleUpload (fun k => if Nat.eqb k 0 then "a1" else "b2") []
               [fileOf "image/png"; fileOf "image/webp"].

(** A service that wraps its suggestion in backticks and spaces. *)
Definition chatty_service (ai : Gemini.jsString) (request : Gemini.Request)
  : Gemini.Result (option Gemini.jsString) :=
  Gemini.Returned (Some (Gemini.units "` scan_2024.pdf `")).

(* ================================================================== *)
(** ** What the further properties are stated with *)

(** The MIME types [handleFiles] lets through. *)
Definition validType (t : string) : Prop :=
  t = "image/jpeg" \/ t = "image/png" \/ t = "image/webp" \/ t = "image/jpg".

(** [{...p, width: w, height: h}]. *)
Definition resized (w h : N) (p : UploadedImage) : UploadedImage :=
  {| id := id p; file := file p; previewUrl := previewUrl p;
     width := w; height := h; name := name p; type := type p |}.

(** The first image is not on a page made like the pages of later images:
    Letter in portrait, or FIT_IMAGE with a fixed orientation that is not
    the shape of the image. *)
Definition firstPageDiffers (settings : PdfSettings) (img : UploadedImage) : Prop :=
  (pageSize settings = LETTER
   /\ (orientation settings = PORTRAIT
       \/ (orientation settings = AUTO /\ (width img <= height img)%N)))
  \/ (pageSize settings = FIT_IMAGE
      /\ ((orientation settings = LANDSCAPE /\ (width img <= height img)%N)
          \/ (orientation settings = PORTRAIT /\ (height img < width img)%N))).

(** A text of white space only (the empty text included). *)
Definition blank (s : Gemini.jsString) : Prop :=
  Forall (fun c => Gemini.isWhiteSpace c = true) s.

(** A text without white space at either end. *)
Definition trimmed (s : Gemini.jsString) : Prop :=
  (forall c rest, s = c :: rest -> Gemini.isWhiteSpace c = false)
  /\ (forall c before, s = before ++ [c] -> Gemini.isWhiteSpace c = false).

(** A file name the cleaning has nothing to do on: not empty, no backtick,
    no white space at the ends, no dot in front. *)
Definition cleanName (s : Gemini.jsString) : Prop :=
  s <> [] /\ ~ In Gemini.backtick s /\ trimmed s
  /\ (forall rest, s <> Gemini.dot :: rest).

(** A text of letters [a-zA-Z] only. *)
Definition letters (s : Gemini.jsString) : Prop :=
  Forall (fun c => Gemini.isLetter c = true) s.

(** A data URL of an image, split at its subtype. *)
Definition imageDataUrl (subtype base64 : Gemini.jsString) : Gemini.jsString :=
  Gemini.units "data:image/" ++ subtype ++ Gemini.units ";base64," ++ base64.

(* ================================================================== *)
(** ** A writer that refuses calls

    [generatePdf] above records what is asked of the writer.  The writer
    itself may throw: jsPDF's [addImage] does when x or y is not a number.
    [generatePdf] catches nothing, so the error ends the call there: the
    later images are not reached and [doc.save] is not called.  [accepts]
    stands for the writer's own test of an [addImage] call; its other
    calls ([addPage], [deletePage], [save]) are taken to return. *)

Section Refusals.

Context {T : Type} `{JsNumber T}.

Variable accepts : Drawn T -> bool.

(** How a call ends: it returns, with the outcome above, or the writer
    threw on the [addImage] call of image [i]. *)
Inductive Ending : Type :=
| Finished (o : Outcome T)
| WriterThrew (i : nat) (d : Drawn T).

(** The [for] loop from index [i] on, up to the first refused call. *)
Fixpoint loopWith (settings : PdfSettings) (i : nat)
    (images : list UploadedImage) (st : State T) : State T + nat * Drawn T :=
  match images with
  | [] => inl st
  | img :: rest =>
      let d := drawn img (rect (layoutOf settings i img)) in
      if accepts d
      then loopWith settings (S i) rest (iteration settings i img st)
      else inr (i, d)
  end.

Definition generatePdfWith (images : list UploadedImage)
    (settings : PdfSettings) : Ending :=
  match images with
  | [] => Finished {| output := []; saved := None |}       (* return; *)
  | _ :: _ =>
      match loopWith settings 0 images
              {| doc := new_jsPDF O_p (FormatName "a4"); layouts := [] |} with
      | inl st =>
          Finished
            {| output := layouts st;
               saved := Some (doc st,
                              if String.eqb (filename settings) ""
                              then "images.pdf" else filename settings) |}
      | inr (i, d) => WriterThrew i d
      end
  end.

End Refusals.

Arguments Ending : clear implicits.

(** The [addImage] calls a run makes when none is refused, in order. *)
Definition addImageCalls {T} `{JsNumber T} (images : list UploadedImage)
    (settings : PdfSettings) : list (Drawn T) :=
  map (fun img => drawn img (rect (layoutOf settings 0 img))) images.

(** jsPDF's test of the coordinates, in exact arithmetic: x and y are
    numbers. *)
Definition hasCoordinates (d : Drawn exact) : bool :=
  match dx d, dy d with
  | NaN, _ | _, NaN => false
  | _, _ => true
  end.



(* ================================================================== *)
(** ** [moveImage] at any index

    [moveImage] above takes the index of a row.  The function itself takes
    any number.  A number names an element of the array when it is a
    non-negative integer (arrays here are shorter than 2^32 - 1 elements).
    Any other number names a property of the array object: reading it
    gives [undefined], writing it leaves the elements as they are.

    [index - 1] and [index + 1] are computed without rounding.  That is
    what binary64 gives for the integers it holds up to 2^53, for the
    infinities and for NaN, and beyond 2^53 the difference does not show,
    the target being out of range either way.  It is not what binary64
    gives for every fraction: 1 - 2^-53 plus 1 rounds to 2.  The
    properties below are therefore stated for an [Index]: an integer, an
    infinity or NaN. *)

Definition arrayIndex (n : exact) : option nat :=
  match n with
  | Fin q =>
      let q' := Qred q in
      if (Qden q' =? 1)%positive && (0 <=? Qnum q')%Z
      then Some (Z.to_nat (Qnum q'))
      else None
  | _ => None
  end.

Definition read (a : ImageArray) (n : exact) : option UploadedImage :=
  match arrayIndex n with
  | Some i => at_index a i
  | None => None
  end.

Definition write (n : exact) (v : option UploadedImage) (a : ImageArray)
  : ImageArray :=
  match arrayIndex n with
  | Some i => assign i v a
  | None => a
  end.

Definition moveImageAt (index : exact) (direction : Direction)
    (images : list UploadedImage) : ImageArray :=
  let newImages := map Some images in
  let targetIndex : exact :=
    match direction with
    | left => sub index (ofQ 1)
    | right => add index (ofQ 1)
    end in
  if Exact.ge targetIndex (ofQ 0)
     && lt targetIndex (ofN (N.of_nat (List.length newImages)))
  then
    let fromTarget := read newImages targetIndex in
    let fromIndex := read newImages index in
    write targetIndex fromIndex (write index fromTarget newImages)
  else newImages.

(** The number [n] is the integer [z]. *)
Definition isInteger (n : exact) (z : Z) : Prop :=
  exists q, n = Fin q /\ (q == inject_Z z)%Q.

Inductive Index : Type :=
| Whole (z : Z)
| Infinite (positive : bool)
| NotANumber.

Definition numberOf (i : Index) : exact :=
  match i with
  | Whole z => Fin (inject_Z z)
  | Infinite positive => Exact.inf_of positive
  | NotANumber => NaN
  end.

(* ================================================================== *)
(** ** The loop, one image at a time

    These hold for any reading of the numbers: nothing here looks inside the
    arithmetic. *)

Section Structure.

Context {T : Type} `{JsNumber T}.

Implicit Types (settings : PdfSettings) (img : UploadedImage)
               (images : list UploadedImage) (st : State T).

Lemma onLastPage_snoc (f : Page T -> Page T) (before : jsPDF T) (pg : Page T) :
  onLastPage f (before ++ [pg]) = before ++ [f pg].
Proof.
  induction before as [|p0 rest IH]; simpl; [reflexivity|].
  rewrite IH. destruct rest; reflexivity.
Qed.

(** The layouts are appended in index order, one per image. *)
Lemma loop_layouts settings images : forall i st,
  layouts (loop settings i images st)
  = layouts st ++ map (fun k_img => layoutOf settings (fst k_img) (snd k_img))
                      (combine (seq i (List.length images)) images).
Proof.
  induction images as [|img rest IH]; intros i st; simpl.
  - now rewrite app_nil_r.
  - rewrite IH. simpl. now rewrite <- app_assoc.
Qed.

Lemma generatePdf_output settings images :
  output (generatePdf images settings)
  = map (fun k_img => layoutOf settings (fst k_img) (snd k_img))
        (combine (seq 0 (List.length images)) images).
Proof.
  destruct images as [|img rest]; [reflexivity|].
  unfold generatePdf. cbn [output]. now rewrite loop_layouts.
Qed.

Lemma nth_error_indexed (images : list UploadedImage) : forall i k,
  nth_error (combine (seq i (List.length images)) images) k
  = option_map (fun img => (i + k, img)) (nth_error images k).
Proof.
  induction images as [|img rest IH]; intros i k; simpl.
  - now destruct k.
  - destruct k as [|k]; simpl.
    + now rewrite Nat.add_0_r.
    + rewrite IH. now rewrite Nat.add_succ_r.
Qed.

(** The layout at position [k] is the one computed from the image at [k]. *)
Lemma generatePdf_output_nth settings images k :
  nth_error (output (generatePdf images settings)) k
  = option_map (layoutOf settings k) (nth_error images k).
Proof.
  rewrite generatePdf_output, nth_error_map, nth_error_indexed.
  now destruct (nth_error images k).
Qed.

Lemma iteration_later settings i img st :
  doc (iteration settings (S i) img st) = doc st ++ [laterPage settings img].
Proof.
  unfold iteration, preparePage, addImage, addPage. cbn [doc Nat.ltb Nat.leb].
  now rewrite onLastPage_snoc.
Qed.

Lemma loop_later settings images : forall i st,
  doc (loop settings (S i) images st)
  = doc st ++ map (laterPage settings) images.
Proof.
  induction images as [|img rest IH]; intros i st; simpl.
  - now rewrite app_nil_r.
  - rewrite IH, iteration_later. now rewrite <- app_assoc.
Qed.

Lemma iteration_first settings img (o : Orient) (f : Format T) :
  o = O_p -> f = FormatName "a4" ->
  doc (iteration settings 0 img {| doc := new_jsPDF o f; layouts := [] |})
  = [firstPage settings img].
Proof.
  intros -> ->.
  unfold iteration, preparePage, firstPage, addImage, addPage, deletePage,
    new_jsPDF.
  cbn [doc Nat.ltb Nat.leb Nat.sub firstn skipn app].
  destruct (isFitImage (pageSize settings)); [reflexivity|].
  destruct (pageOrientation (setup (layoutOf settings 0 img))); reflexivity.
Qed.

(** The document that is saved: one page per image, in order, each with
    exactly the one image drawn on it. *)
Lemma generatePdf_saved settings img rest :
  saved (generatePdf (img :: rest) settings)
  = Some (firstPage settings img :: map (laterPage settings) rest,
          if String.eqb (filename settings) "" then "images.pdf"
          else filename settings).
Proof.
  unfold generatePdf. cbn [saved loop].
  now rewrite loop_later, iteration_first.
Qed.

(** Each page of the saved document carries exactly the image it was
    made for. *)
Lemma saved_page_images settings images pdf fname :
  saved (generatePdf images settings) = Some (pdf, fname) ->
  map (@page_images T) pdf
  = map (fun img => [drawn img (rect (layoutOf settings 0 img))]) images.
Proof.
  intros Hsaved. destruct images as [|img rest]; [discriminate|].
  rewrite generatePdf_saved in Hsaved. injection Hsaved as <- _.
  cbn [map firstPage page_images]. f_equal. now rewrite map_map.
Qed.

Lemma pages_follow_layouts settings images : forall i,
  map (fun l_img => [drawn (snd l_img) (rect (fst l_img))])
      (combine (map (fun k_img => layoutOf settings (fst k_img) (snd k_img))
                    (combine (seq i (List.length images)) images))
               images)
  = map (fun img => [drawn img (rect (layoutOf settings 0 img))]) images.
Proof.
  induction images as [|img rest IH]; intros i; [reflexivity|].
  cbn [List.length seq combine map fst snd]. f_equal. apply IH.
Qed.

(** All the [addImage] calls of a run, in order. *)
Lemma generatePdf_allDrawn settings images pdf fname :
  saved (generatePdf images settings) = Some (pdf, fname) ->
  allDrawn pdf
  = map (fun img => drawn img (rect (layoutOf settings 0 img))) images.
Proof.
  intros Hsaved. unfold allDrawn.
  rewrite flat_map_concat_map, (saved_page_images _ _ Hsaved).
  clear Hsaved. induction images as [|img rest IH]; [reflexivity|].
  simpl. f_equal. exact IH.
Qed.

(** Whatever is not a PNG is given to the writer as 'JPEG', with the bytes
    of the uploaded file. *)
Lemma non_png_is_drawn_as_jpeg settings images pdf fname img :
  saved (generatePdf images settings) = Some (pdf, fname) ->
  In img images ->
  type img <> "image/png" ->
  exists d, In d (allDrawn pdf)
            /\ imageData d = previewUrl img
            /\ imageFormat d = "JPEG".
Proof.
  intros Hsaved Hin Htype.
  exists (drawn img (rect (layoutOf settings 0 img))).
  rewrite (generatePdf_allDrawn _ _ Hsaved). split.
  - apply (in_map (fun i => drawn i (rect (layoutOf settings 0 i)))), Hin.
  - split; [reflexivity|]. unfold drawn. cbn [imageFormat].
    destruct (String.eqb_spec (type img) "image/png");
      [contradiction | reflexivity].
Qed.

(** On a standard format in portrait, the first image is drawn on the page
    the document was created with: format 'a4', whatever the page size
    asked for. *)
Lemma first_page_kept_in_portrait settings img rest :
  pageSize settings <> FIT_IMAGE ->
  pageOrientation (setup (layoutOf settings 0 img)) = O_p ->
  exists pg pages fname,
    saved (generatePdf (img :: rest) settings) = Some (pg :: pages, fname)
    /\ page_format pg = FormatName "a4"
    /\ page_orientation pg = O_p.
Proof.
  intros Hstd Hp. rewrite generatePdf_saved. do 3 eexists.
  split; [reflexivity|]. unfold firstPage. cbn [page_format page_orientation].
  rewrite Hp. destruct (pageSize settings); [| |contradiction];
    split; reflexivity.
Qed.

(** FIT_IMAGE: the page is the image at 0.264583 mm per pixel, and the image
    covers it; margin, orientation and image fit play no part. *)
Lemma fit_image_layout settings i img :
  pageSize settings = FIT_IMAGE ->
  setup (layoutOf settings i img)
  = oriented (pageOrientation (setup (layoutOf settings i img)))
             (pageDimensions settings img)
  /\ pageDimensions settings img
     = {| pageWidth := mul (ofN (width img)) pxToMm;
          pageHeight := mul (ofN (height img)) pxToMm;
          targetFormat := FormatSize (mul (ofN (width img)) pxToMm)
                                     (mul (ofN (height img)) pxToMm);
          pageOrientation := O_p |}
  /\ rect (layoutOf settings i img)
     = {| x := ofQ 0; y := ofQ 0;
          w := mul (ofN (width img)) pxToMm;
          h := mul (ofN (height img)) pxToMm |}.
Proof.
  intros Hfit. unfold layoutOf, placeImage, determineOrientation, pageDimensions.
  cbn [setup rect]. rewrite Hfit. cbn [isFitImage negb andb].
  destruct (orientation settings); repeat split; reflexivity.
Qed.

(** C1. The layout computation yields exactly one [PageLayout] per input
    image, in input order: the output is as long as the input, and the
    layout at position [k] has [sourceImageIndex = k] and is the layout of
    the image at position [k].  The saved document follows suit: its pages
    are, in order, one per image, page [k] carrying exactly image [k] at
    the rectangle of layout [k].  (This holds for every list; the claim asks it of the
    non-empty ones.) *)
Theorem C1_one_layout_per_image_in_order images settings :
  List.length (output (generatePdf images settings)) = List.length images
  /\ (forall k, k < List.length images ->
        exists l img,
          nth_error (output (generatePdf images settings)) k = Some l
          /\ nth_error images k = Some img
          /\ sourceImageIndex l = k
          /\ l = layoutOf settings k img)
  /\ (forall pdf fname,
        saved (generatePdf images settings) = Some (pdf, fname) ->
        map (@page_images T) pdf
        = map (fun l_img => [drawn (snd l_img) (rect (fst l_img))])
              (combine (output (generatePdf images settings)) images)).
Proof.
  split; [|split].
  - rewrite generatePdf_output, length_map, length_combine, length_seq.
    apply Nat.min_id.
  - intros k Hk.
    destruct (nth_error images k) as [img|] eqn:Himg.
    + exists (layoutOf settings k img), img.
      rewrite generatePdf_output_nth, Himg. repeat split; reflexivity.
    + apply nth_error_None in Himg. lia.
  - intros pdf fname Hsaved.
    rewrite (saved_page_images _ _ Hsaved), generatePdf_output.
    symmetry. apply pages_follow_layouts.
Qed.

(** C9. An empty image list is a no-op, not an error: the call returns at
    once, with an empty output sequence and no document written.  It is the
    only input for which nothing is saved. *)
Theorem C9_empty_input_is_a_no_op settings :
  generatePdf (T:=T) [] settings = {| output := []; saved := None |}
  /\ (forall images,
        saved (generatePdf (T:=T) images settings) = None <-> images = []).
Proof.
  split; [reflexivity|]. intros images. split.
  - destruct images as [|img rest]; [reflexivity|].
    rewrite generatePdf_saved. discriminate.
  - intros ->. reflexivity.
Qed.

(** C10. The page size and the image rectangle computed for an image depend
    only on its pixel width, its pixel height and the settings (page size,
    orientation, margin, image fit): whatever the two image lists, and
    wherever the image stands in them, two images of equal pixel size get the
    same six measurements. *)
Theorem C10_layout_depends_only_on_size_and_settings
    images1 images2 settings1 settings2 i j img1 img2 :
  nth_error images1 i = Some img1 ->
  nth_error images2 j = Some img2 ->
  width img1 = width img2 ->
  height img1 = height img2 ->
  pageSize settings1 = pageSize settings2 ->
  orientation settings1 = orientation settings2 ->
  margin settings1 = margin settings2 ->
  imageFit settings1 = imageFit settings2 ->
  exists l1 l2,
    nth_error (output (generatePdf images1 settings1)) i = Some l1
    /\ nth_error (output (generatePdf images2 settings2)) j = Some l2
    /\ geometry l1 = geometry l2.
Proof.
  intros H1 H2 Hw Hh Hsize Hori Hmargin Hfit.
  exists (layoutOf settings1 i img1), (layoutOf settings2 j img2).
  rewrite !generatePdf_output_nth, H1, H2. repeat split.
  unfold geometry, pageWidthMm, pageHeightMm, imageX, imageY, imageWidthMm,
    imageHeightMm, layoutOf.
  cbn [setup rect].
  unfold placeImage, determineOrientation, pageDimensions.
  rewrite Hw, Hh, Hsize, Hori, Hmargin, Hfit. reflexivity.
Qed.

End Structure.

(* ================================================================== *)
(** ** The loop with a writer that refuses calls *)

Section Refusing.

Context {T : Type} `{JsNumber T}.

Variable accepts : Drawn T -> bool.

Implicit Types (settings : PdfSettings) (img : UploadedImage)
               (images : list UploadedImage) (st : State T).

(** The loop with a writer that may refuse: it is the loop above as long as
    every call is accepted, and stops at the first call that is not. *)
Lemma loopWith_ends settings images : forall i st,
  match loopWith accepts settings i images st with
  | inl st' =>
      st' = loop settings i images st
      /\ Forall (fun d => accepts d = true) (addImageCalls images settings)
  | inr (j, d) =>
      exists k, j = i + k
                /\ nth_error (addImageCalls images settings) k = Some d
                /\ accepts d = false
                /\ Forall (fun d' => accepts d' = true)
                          (firstn k (addImageCalls images settings))
  end.
Proof.
  induction images as [|img rest IH]; intros i st; cbn [loopWith loop].
  - split; [reflexivity | constructor].
  - change (drawn img (rect (layoutOf settings i img)))
      with (drawn img (rect (layoutOf settings 0 img))).
    destruct (accepts (drawn img (rect (layoutOf settings 0 img)))) eqn:E.
    + specialize (IH (S i) (iteration settings i img st)).
      destruct (loopWith accepts settings (S i) rest (iteration settings i img st))
        as [st'|[j d]].
      * destruct IH as (-> & Hall). split; [reflexivity|].
        unfold addImageCalls. cbn [map]. now constructor.
      * destruct IH as (k & -> & Hnth & Hno & Hbefore).
        exists (S k). split; [lia|]. split; [exact Hnth|]. split; [exact Hno|].
        unfold addImageCalls. cbn [map firstn]. now constructor.
    + exists 0. split; [lia|]. split; [reflexivity|]. split; [exact E|].
      constructor.
Qed.

(** A call ends in one of two ways: every [addImage] call was accepted and
    the run is the one [generatePdf] describes, or it stopped at the first
    call the writer refused. *)
Lemma generatePdfWith_ends images settings :
  match generatePdfWith accepts images settings with
  | Finished o =>
      o = generatePdf images settings
      /\ Forall (fun d => accepts d = true) (addImageCalls images settings)
  | WriterThrew i d =>
      nth_error (addImageCalls images settings) i = Some d
      /\ accepts d = false
      /\ Forall (fun d' => accepts d' = true)
                (firstn i (addImageCalls images settings))
  end.
Proof.
  destruct images as [|img rest]; [split; [reflexivity | constructor]|].
  unfold generatePdfWith, generatePdf.
  assert (Hends := loopWith_ends settings (img :: rest) 0
                     {| doc := new_jsPDF O_p (FormatName "a4"); layouts := [] |}).
  destruct (loopWith accepts settings 0 (img :: rest) _) as [st'|[j d]].
  - destruct Hends as (-> & Hall). split; [reflexivity | exact Hall].
  - destruct Hends as (k & -> & Hrest). exact Hrest.
Qed.

(** A refused call ends the run at that call or before it. *)
Lemma refused_call_ends_the_run images settings k d :
  nth_error (addImageCalls images settings) k = Some d ->
  accepts d = false ->
  exists i d', generatePdfWith accepts images settings = WriterThrew i d'
               /\ i <= k.
Proof.
  intros Hk Hno. assert (Hends := generatePdfWith_ends images settings).
  destruct (generatePdfWith accepts images settings) as [o|i d'].
  - destruct Hends as (_ & Hall). rewrite Forall_forall in Hall.
    apply nth_error_In in Hk. apply Hall in Hk. congruence.
  - exists i, d'. split; [reflexivity|].
    destruct Hends as (_ & _ & Hbefore).
    destruct (Nat.le_gt_cases i k) as [Hle|Hgt]; [exact Hle|exfalso].
    rewrite Forall_forall in Hbefore.
    assert (Hin : In d (firstn i (addImageCalls images settings))).
    { apply (@nth_error_In _ _ k). rewrite nth_error_firstn.
      replace (Nat.ltb k i) with true by (symmetry; apply Nat.ltb_lt; lia).
      exact Hk. }
    apply Hbefore in Hin. congruence.
Qed.

(** C5, as the code has it.  [generatePdf] checks no pixel size and has no
    failure of its own: there is no InvalidDimension.  Every image, a
    0 x 0 one included, gets its rectangle and is handed to [addImage].
    A run ends in one of two ways.  Either the writer accepts every
    [addImage] call: then the run is the one [generatePdf] describes, the
    document saved when the list is not empty.  Or the writer refuses one:
    then the run ends at the first refused call, with the index of its
    image, nothing saved.  Whether the writer refuses depends on the
    numbers it is handed, not on the pixel size as such: on a standard page
    with a fit other than CONTAIN every call has [x = y = margin], whatever
    the sizes. *)
Theorem C5_no_dimension_check_only_the_writer_refuses images settings :
  match generatePdfWith accepts images settings with
  | Finished o =>
      o = generatePdf images settings
      /\ Forall (fun d => accepts d = true) (addImageCalls images settings)
  | WriterThrew i d =>
      nth_error (addImageCalls images settings) i = Some d
      /\ accepts d = false
      /\ Forall (fun d' => accepts d' = true)
                (firstn i (addImageCalls images settings))
  end
  /\ (pageSize settings <> FIT_IMAGE -> imageFit settings <> CONTAIN ->
      Forall (fun d => dx d = ofQ (margin settings)
                       /\ dy d = ofQ (margin settings))
             (addImageCalls images settings)).
Proof.
  split; [apply generatePdfWith_ends|].
  intros Hstd Hfit. unfold addImageCalls. apply Forall_forall.
  intros d Hin. apply in_map_iff in Hin. destruct Hin as (img & <- & _).
  unfold drawn, layoutOf, placeImage. cbn [dx dy rect].
  destruct (pageSize settings); [| |contradiction]; cbn [isFitImage];
    (destruct (imageFit settings); [contradiction| |]); split; reflexivity.
Qed.

End Refusing.

(* ================================================================== *)
(** ** Exact arithmetic: finite values *)

Section ExactFacts.

Implicit Types (a b : Q) (x y : exact).

Lemma valued_ext a b x : (a == b)%Q -> valued a x -> valued b x.
Proof. unfold valued. intros E ->. f_equal. now apply Qred_complete. Qed.

Lemma valued_eq a x y : valued a x -> valued a y -> x = y.
Proof. unfold valued. congruence. Qed.

Lemma valued_ofQ a : valued a (ofQ a).
Proof. reflexivity. Qed.

Lemma valued_ofN (n : N) : valued (inject_Z (Z.of_N n)) (ofN n).
Proof. reflexivity. Qed.


Lemma valued_sub a b x y :
  valued a x -> valued b y -> valued (a - b) (sub x y).
Proof.
  unfold valued. intros -> ->.
  change (Fin (Qred (Qred a - Qred b)) = Fin (Qred (a - b))).
  f_equal. apply Qred_complete. now rewrite !Qred_correct.
Qed.

Lemma valued_mul a b x y :
  valued a x -> valued b y -> valued (a * b) (mul x y).
Proof.
  unfold valued. intros -> ->.
  change (Fin (Qred (Qred a * Qred b)) = Fin (Qred (a * b))).
  f_equal. apply Qred_complete. now rewrite !Qred_correct.
Qed.

Lemma Qzero_false a : ~ (a == 0)%Q -> Exact.Qzero (Qred a) = false.
Proof.
  intros Ha. unfold Exact.Qzero.
  destruct (Qeq_bool (Qred a) 0) eqn:E; [|reflexivity].
  apply Qeq_bool_iff in E. rewrite Qred_correct in E. contradiction.
Qed.

Lemma valued_div a b x y :
  valued a x -> valued b y -> ~ (b == 0)%Q -> valued (a / b) (div x y).
Proof.
  unfold valued. intros -> -> Hb.
  change (div (Fin (Qred a)) (Fin (Qred b)))
    with (if Exact.Qzero (Qred b)
          then (if Exact.Qzero (Qred a) then NaN
                else Exact.inf_of (Exact.Qltb 0 (Qred a)))
          else Fin (Qred (Qred a / Qred b))).
  rewrite (Qzero_false Hb). f_equal. apply Qred_complete. now rewrite !Qred_correct.
Qed.

Lemma gt_valued a b x y :
  valued a x -> valued b y -> (gt x y = true <-> (b < a)%Q).
Proof.
  unfold valued. intros -> ->.
  change (gt (Fin (Qred a)) (Fin (Qred b)))
    with (negb (Qle_bool (Qred a) (Qred b))).
  rewrite negb_true_iff, <- not_true_iff_false, Qle_bool_iff, !Qred_correct.
  split; [apply Qnot_le_lt | apply Qlt_not_le].
Qed.

Lemma gt_valued_false a b x y :
  valued a x -> valued b y -> (gt x y = false <-> (a <= b)%Q).
Proof.
  intros Hx Hy. rewrite <- not_true_iff_false, (gt_valued Hx Hy).
  split; [apply Qnot_lt_le | apply Qle_not_lt].
Qed.

Lemma ge_valued a b x y :
  valued a x -> valued b y -> (Exact.ge x y = true <-> (b <= a)%Q).
Proof.
  unfold valued. intros -> ->.
  change (Exact.ge (Fin (Qred a)) (Fin (Qred b)))
    with (Qle_bool (Qred b) (Qred a)).
  now rewrite Qle_bool_iff, !Qred_correct.
Qed.


End ExactFacts.

(** Two facts about ratios of positive rationals. *)
Section Ratios.

Local Open Scope Q_scope.



End Ratios.


(* ================================================================== *)
(** ** The layout in exact arithmetic *)

Section ExactLayout.

Implicit Types (settings : PdfSettings) (img : UploadedImage) (d : PageSetup exact).

Lemma QofN_pos n : (0 < n)%N -> (0 < QofN n)%Q.
Proof. intros Hn. unfold QofN, Qlt. simpl. lia. Qed.

Lemma QofN_lt n m : (QofN n < QofN m)%Q <-> (n < m)%N.
Proof. unfold QofN. rewrite <- Zlt_Qlt. lia. Qed.

Lemma gt_ofN (n m : N) : gt (T:=exact) (ofN n) (ofN m) = (m <? n)%N.
Proof.
  destruct (m <? n)%N eqn:E.
  - apply (gt_valued (valued_ofN n) (valued_ofN m)), QofN_lt, N.ltb_lt, E.
  - apply (gt_valued_false (valued_ofN n) (valued_ofN m)).
    apply Qnot_lt_le. intros Hlt. apply QofN_lt, N.ltb_lt in Hlt. congruence.
Qed.

(** A standard page is one of 210 x 297, 297 x 210, 215.9 x 279.4 and
    279.4 x 215.9: no side is below 210 mm. *)
Lemma standard_setup settings img :
  pageSize settings <> FIT_IMAGE ->
  let d := determineOrientation (T:=exact) settings img (pageDimensions settings img) in
  exists pw ph, valued pw (pageWidth d) /\ valued ph (pageHeight d)
                /\ (210 <= pw)%Q /\ (210 <= ph)%Q.
Proof.
  intros Hstd d. subst d. unfold determineOrientation, pageDimensions.
  destruct (pageSize settings); [| |contradiction];
    (destruct (orientation settings); cbn [isFitImage negb andb];
     [ | | destruct (gt _ _)]);
    cbn [Orient_eqb swapped oriented pageWidth pageHeight];
    try (change (lt (T:=exact) A4_WIDTH A4_HEIGHT) with true);
    try (change (lt (T:=exact) LETTER_WIDTH LETTER_HEIGHT) with true);
    cbn [swapped oriented pageWidth pageHeight];
    (eexists; eexists; split; [apply valued_ofQ|split; [apply valued_ofQ|]]);
    split; unfold Qle; simpl; lia.
Qed.

Lemma isFitImage_false (size : PageSize) :
  size <> FIT_IMAGE -> isFitImage size = false.
Proof. destruct size; [reflexivity|reflexivity|contradiction]. Qed.

(** The rectangle of the CONTAIN fit, read as rationals.  [pw], [ph] and
    [m] are the page size and the margin, [dw] and [dh] the drawable area,
    [r] the image ratio. *)
Lemma placeImage_contain settings img d (pw ph : Q) :
  pageSize settings <> FIT_IMAGE ->
  imageFit settings = CONTAIN ->
  valued pw (pageWidth d) -> valued ph (pageHeight d) ->
  (0 < width img)%N -> (0 < height img)%N ->
  let m := margin settings in
  let dw := (pw - m * 2)%Q in
  let dh := (ph - m * 2)%Q in
  let r := (QofN (width img) / QofN (height img))%Q in
  (0 < dw)%Q -> (0 < dh)%Q ->
  let drawWidth := sub (pageWidth d) (mul (ofQ m) (ofQ 2)) in
  let drawHeight := sub (pageHeight d) (mul (ofQ m) (ofQ 2)) in
  let imgRatio := div (T:=exact) (ofN (width img)) (ofN (height img)) in
  let pageRatio := div drawWidth drawHeight in
  let rc := placeImage settings img d in
  valued dw drawWidth /\ valued dh drawHeight /\ valued r imgRatio /\ (0 < r)%Q /\
  ( ((dw / dh < r)%Q /\ gt imgRatio pageRatio = true
     /\ x rc = ofQ m
     /\ y rc = add (ofQ m) (div (sub drawHeight (h rc)) (ofQ 2))
     /\ w rc = drawWidth
     /\ h rc = div drawWidth imgRatio
     /\ valued (dw / r) (h rc))
    \/
    ((r <= dw / dh)%Q /\ gt imgRatio pageRatio = false
     /\ x rc = add (ofQ m) (div (sub drawWidth (w rc)) (ofQ 2))
     /\ y rc = ofQ m
     /\ w rc = mul drawHeight imgRatio
     /\ h rc = drawHeight
     /\ valued (dh * r) (w rc)) ).
Proof.
  intros Hstd Hfit Hpw Hph HW HH m dw dh r Hdw Hdh drawWidth drawHeight
    imgRatio pageRatio rc.
  assert (Vdw : valued dw drawWidth)
    by (apply valued_sub; [assumption | apply valued_mul; apply valued_ofQ]).
  assert (Vdh : valued dh drawHeight)
    by (apply valued_sub; [assumption | apply valued_mul; apply valued_ofQ]).
  assert (HWq := QofN_pos HW). assert (HHq := QofN_pos HH).
  assert (Vr : valued r imgRatio).
  { apply valued_div; [apply valued_ofN | apply valued_ofN |].
    intros E. fold (QofN (height img)) in E. rewrite E in HHq.
    exact (Qlt_irrefl _ HHq). }
  assert (Hr : (0 < r)%Q).
  { unfold r. apply Qlt_shift_div_l; [assumption|]. now rewrite Qmult_0_l. }
  assert (Vpr : valued (dw / dh) pageRatio).
  { apply valued_div; [assumption | assumption |].
    intros E. rewrite E in Hdh. exact (Qlt_irrefl _ Hdh). }
  repeat (split; [assumption|]).
  subst rc. unfold placeImage. rewrite (isFitImage_false Hstd), Hfit.
  subst imgRatio pageRatio drawWidth drawHeight m. cbv zeta.
  match goal with
  | |- context [if ?c then _ else _] => destruct c eqn:Hgt
  end; [left|right]; cbn [x y w h].
  - apply (gt_valued Vr Vpr) in Hgt.
    repeat (split; [assumption || reflexivity|]).
    apply valued_div; [assumption | assumption |].
    intros E. rewrite E in Hr. exact (Qlt_irrefl _ Hr).
  - apply (gt_valued_false Vr Vpr) in Hgt.
    repeat (split; [assumption || reflexivity|]).
    now apply valued_mul.
Qed.

(** On a standard page with a margin of at most 50 mm the drawable area is
    at least 110 mm wide and high. *)
Lemma standard_drawable settings img :
  pageSize settings <> FIT_IMAGE ->
  (0 <= margin settings <= 50)%Q ->
  let d := determineOrientation (T:=exact) settings img
             (pageDimensions settings img) in
  exists pw ph, valued pw (pageWidth d) /\ valued ph (pageHeight d)
                /\ (110 <= pw - margin settings * 2)%Q
                /\ (110 <= ph - margin settings * 2)%Q.
Proof.
  intros Hstd Hm d.
  destruct (@standard_setup settings img Hstd) as (pw & ph & Vpw & Vph & Hpw & Hph).
  exists pw, ph. repeat split; try assumption; lra.
Qed.




(** C3, as the code has it.  In FIT_IMAGE mode the page measures the pixel
    size times the constant 0.264583 (not 25.4/96 = 0.2645833...): it is
    [pixels / 3000000] mm short of [pixels * 25.4 / 96], which is within
    1e-6 only up to 3 pixels.  The image rectangle is the full page at
    (0, 0); the other settings (margin, image fit, orientation) leave the
    six measurements as they are. *)
Theorem C3_fit_image_page_is_the_image images settings k img :
  nth_error images k = Some img ->
  pageSize settings = FIT_IMAGE ->
  exists l,
    nth_error (output (generatePdf (T:=exact) images settings)) k = Some l
    /\ PageIsImage img l
    /\ (forall settings',
          pageSize settings' = FIT_IMAGE ->
          option_map geometry
            (nth_error (output (generatePdf (T:=exact) images settings')) k)
          = Some (geometry l)).
Proof.
  intros Himg Hfit. exists (layoutOf settings k img).
  rewrite generatePdf_output_nth, Himg. split; [reflexivity|].
  split; [|
    intros settings' Hfit'; rewrite generatePdf_output_nth, Himg;
    cbn [option_map]; f_equal;
    destruct (fit_image_layout (T:=exact) settings k img Hfit) as (Hs & Hd & Hr);
    destruct (fit_image_layout (T:=exact) settings' k img Hfit')
      as (Hs' & Hd' & Hr');
    unfold geometry, pageWidthMm, pageHeightMm, imageX, imageY, imageWidthMm,
      imageHeightMm;
    rewrite Hs, Hs', Hr, Hr', Hd, Hd'; reflexivity ].
  destruct (fit_image_layout (T:=exact) settings k img Hfit) as (Hs & Hd & Hr).
  unfold PageIsImage, pageWidthMm, pageHeightMm, imageX, imageY, imageWidthMm,
    imageHeightMm.
  rewrite Hs, Hr, Hd. cbn [oriented pageWidth pageHeight x y w h].
  assert (dev : forall n : N,
    sub (T:=exact) (mmAt96dpi n) (mul (ofN n) pxToMm)
    = ofQ (QofN n / 3000000)).
  { intros n. apply (valued_eq (a:=(QofN n / 3000000)%Q)); [|apply valued_ofQ].
    apply (valued_ext
             (a:=(QofN n * (254 # 10) / 96 - QofN n * (264583 # 1000000))%Q)).
    - field.
    - apply valued_sub.
      + apply valued_div; [apply valued_mul| |discriminate];
          first [apply valued_ofN | apply valued_ofQ].
      + apply valued_mul; [apply valued_ofN | apply valued_ofQ]. }
  repeat split; apply dev.
Qed.

(** C4. With [orientation = AUTO] the page is landscape exactly when the
    image is wider than high, and portrait otherwise (a square image
    included).  On a standard page a landscape orientation exchanges the
    nominal width and height, so that the width exceeds the height; a
    portrait page keeps them.  A 3000 x 2000 image on A4 with AUTO gets a
    page of 297 x 210 mm. *)
Theorem C4_auto_orientation_and_landscape_swap images settings k img :
  nth_error images k = Some img ->
  (exists l,
      nth_error (output (generatePdf (T:=exact) images settings)) k = Some l
      /\ OrientedPage settings img l)
  /\ map (fun l => (pageWidthMm l, pageHeightMm l))
         (output (generatePdf (T:=exact) [imageOf "image/jpeg" 3000 2000]
                    (settingsOf A4 AUTO 10 CONTAIN)))
     = [(ofQ 297, ofQ 210)].
Proof.
  intros Himg. split; [|reflexivity].
  exists (layoutOf settings k img).
  rewrite generatePdf_output_nth, Himg. split; [reflexivity|].
  unfold OrientedPage, pageWidthMm, pageHeightMm, layoutOf. cbn [setup].
  unfold determineOrientation, pageDimensions.
  repeat split.
  - intros ->. rewrite gt_ofN.
    destruct (pageSize settings), (height img <? width img)%N; reflexivity.
  - intros ->. destruct (orientation settings); cbn [isFitImage negb andb];
      [ | | destruct (gt (ofN (width img)) (ofN (height img)))]; repeat split; reflexivity.
  - intros ->. destruct (orientation settings); cbn [isFitImage negb andb];
      [ | | destruct (gt (ofN (width img)) (ofN (height img)))]; repeat split; reflexivity.
  - intros Hstd.
    destruct (pageSize settings); [| |contradiction];
      (destruct (orientation settings); cbn [isFitImage negb andb];
       [ | | destruct (gt (ofN (width img)) (ofN (height img)))]); reflexivity.
Qed.

(** C8. On a standard page (A4 or Letter, portrait or landscape) with a
    margin between 0 and 50 mm, the image rectangle of an image of positive
    pixel size never has a negative width or height, whatever the image fit:
    the drawable area is at least 110 mm each way.  With a margin of 50 mm
    on portrait A4 the drawable area is 110 x 197 mm. *)
Theorem C8_rectangle_is_never_negative images settings k img :
  nth_error images k = Some img ->
  (0 < width img)%N -> (0 < height img)%N ->
  pageSize settings <> FIT_IMAGE ->
  (0 <= margin settings <= 50)%Q ->
  exists l,
    nth_error (output (generatePdf (T:=exact) images settings)) k = Some l
    /\ Exact.ge (imageWidthMm l) (ofQ 0) = true
    /\ Exact.ge (imageHeightMm l) (ofQ 0) = true
    /\ Exact.ge (drawableWidth settings l) (ofQ 110) = true
    /\ Exact.ge (drawableHeight settings l) (ofQ 110) = true
    /\ (pageSize settings = A4 -> orientation settings = PORTRAIT ->
        margin settings = 50%Q ->
        drawableWidth settings l = ofQ 110
        /\ drawableHeight settings l = ofQ 197).
Proof.
  intros Himg HW HH Hstd Hm.
  exists (layoutOf settings k img).
  rewrite generatePdf_output_nth, Himg. split; [reflexivity|].
  destruct (@standard_drawable settings img Hstd Hm)
    as (pw & ph & Vpw & Vph & Hdw & Hdh).
  unfold drawableWidth, drawableHeight, imageWidthMm, imageHeightMm,
    pageWidthMm, pageHeightMm, layoutOf. cbn [setup rect].
  set (d := determineOrientation settings img (pageDimensions settings img)) in *.
  set (m := margin settings) in *.
  assert (VdW : valued (pw - m * 2) (sub (pageWidth d) (mul (ofQ m) (ofQ 2))))
    by (apply valued_sub; [assumption | apply valued_mul; apply valued_ofQ]).
  assert (VdH : valued (ph - m * 2) (sub (pageHeight d) (mul (ofQ m) (ofQ 2))))
    by (apply valued_sub; [assumption | apply valued_mul; apply valued_ofQ]).
  assert (Hrect :
    Exact.ge (w (placeImage settings img d)) (ofQ 0) = true
    /\ Exact.ge (h (placeImage settings img d)) (ofQ 0) = true).
  { destruct (imageFit settings) eqn:Hfit.
    - assert (Hdw0 : (0 < pw - m * 2)%Q) by lra.
      assert (Hdh0 : (0 < ph - m * 2)%Q) by lra.
      destruct (@placeImage_contain settings img d pw ph Hstd Hfit Vpw Vph
                  HW HH Hdw0 Hdh0) as (_ & _ & _ & Hr & Hcase).
      fold m in Hcase.
      destruct Hcase as [(_ & _ & _ & _ & -> & _ & Vh)
                        |(_ & _ & _ & _ & _ & -> & Vw)].
      + split.
        * apply (ge_valued VdW (valued_ofQ 0)). lra.
        * apply (ge_valued Vh (valued_ofQ 0)).
          apply Qlt_le_weak, Qlt_shift_div_l; [exact Hr|]. lra.
      + split.
        * apply (ge_valued Vw (valued_ofQ 0)).
          apply Qmult_le_0_compat; lra.
        * apply (ge_valued VdH (valued_ofQ 0)). lra.
    - unfold placeImage. rewrite (isFitImage_false Hstd), Hfit. cbn [w h].
      fold m. split; [apply (ge_valued VdW (valued_ofQ 0))
                     |apply (ge_valued VdH (valued_ofQ 0))]; lra.
    - unfold placeImage. rewrite (isFitImage_false Hstd), Hfit. cbn [w h].
      fold m. split; [apply (ge_valued VdW (valued_ofQ 0))
                     |apply (ge_valued VdH (valued_ofQ 0))]; lra. }
  destruct Hrect as (Hw0 & Hh0).
  split; [exact Hw0|]. split; [exact Hh0|].
  split; [apply (ge_valued VdW (valued_ofQ 110)); exact Hdw|].
  split; [apply (ge_valued VdH (valued_ofQ 110)); exact Hdh|].
  intros HA4 Hportrait Hfifty. subst d m.
  unfold determineOrientation, pageDimensions.
  rewrite HA4, Hportrait, Hfifty. split; reflexivity.
Qed.

End ExactLayout.

(* ================================================================== *)
(** ** Concrete runs *)

(** The scenario of the specification, exactly: page 210 x 297, image at
    (10, 511/6) with size 190 x 380/3. *)
Example scenario_exact :
  map geometry (output (generatePdf (T:=exact) [scenario_image] scenario_settings))
  = [(Fin 210, Fin 297, (Fin 10, Fin (511 # 6), Fin 190, Fin (380 # 3)))].
Proof. reflexivity. Qed.

(** The same scenario in binary64: 190 x 126.67 at (10, 85.17), to within
    0.01, on a page of exactly 210 x 297, with the aspect ratio of the image
    to within 1e-9. *)
Example scenario_binary64 :
  map (fun l =>
         (PrimFloat.eqb (pageWidthMm l) (ofQ 210),
          PrimFloat.eqb (pageHeightMm l) (ofQ 297),
          within (ofQ (1 # 100)) (imageX l) (ofQ 10),
          within (ofQ (1 # 100)) (imageY l) (ofQ (8517 # 100)),
          within (ofQ (1 # 100)) (imageWidthMm l) (ofQ 190),
          within (ofQ (1 # 100)) (imageHeightMm l) (ofQ (12667 # 100)),
          within (ofQ (1 # 1000000000)) (div (imageWidthMm l) (imageHeightMm l))
                 (imageRatio scenario_image)))
      (output (generatePdf (T:=float) [scenario_image] scenario_settings))
  = [(true, true, true, true, true, true, true)].
Proof. vm_compute. reflexivity. Qed.

(** A 0 x 0 image under the default settings (CONTAIN): the image ratio is
    0/0, and the rectangle handed to the writer has no x and no width. *)
Example unprobed_contain_exact :
  map (fun l => rect l) (output (generatePdf (T:=exact) unprobed_images DEFAULT_SETTINGS))
  = [{| x := NaN; y := Fin 10; w := NaN; h := Fin 277 |}].
Proof. reflexivity. Qed.

Example unprobed_contain_binary64 :
  map (fun l => (PrimFloat.is_nan (imageX l), PrimFloat.is_nan (imageWidthMm l)))
      (output (generatePdf (T:=float) unprobed_images DEFAULT_SETTINGS))
  = [(true, true)].
Proof. vm_compute. reflexivity. Qed.

(** C3, counterexample.  A 3000 x 2000 image in FIT_IMAGE mode gets a page
    793.749 mm wide; 3000 * 25.4 / 96 is 793.75 mm.  The page is more than
    1e-6 narrower, in exact arithmetic and in binary64 alike. *)
Lemma C3_page_width_off_by_more_than_1e_6 :
  (exists l,
      output (generatePdf (T:=exact) [imageOf "image/jpeg" 3000 2000]
                (settingsOf FIT_IMAGE AUTO 10 CONTAIN)) = [l]
      /\ pageWidthMm l = ofQ (793749 # 1000)
      /\ mmAt96dpi 3000 = ofQ (79375 # 100)
      /\ gt (sub (mmAt96dpi 3000) (pageWidthMm l)) (ofQ (1 # 1000000)) = true)
  /\ (exists l,
      output (generatePdf (T:=float) [imageOf "image/jpeg" 3000 2000]
                (settingsOf FIT_IMAGE AUTO 10 CONTAIN)) = [l]
      /\ gt (sub (mmAt96dpi 3000) (pageWidthMm l)) (ofQ (1 # 1000000)) = true).
Proof.
  split; eexists; (split; [reflexivity|]).
  - split; [reflexivity|]. split; [reflexivity|]. reflexivity.
  - vm_compute. reflexivity.
Qed.


(** With the default settings (A4, CONTAIN) an image whose pixel size is
    still 0 x 0 has the ratio 0/0: x and the width handed to [addImage] are
    NaN, and a writer that tests the coordinates throws at that call, the
    first one.  No document is saved. *)
Example unprobed_contain_is_refused :
  exists d,
    generatePdfWith hasCoordinates unprobed_images DEFAULT_SETTINGS
    = WriterThrew 0 d
    /\ dx d = NaN /\ dw d = NaN.
Proof. eexists. split; [reflexivity|]. split; reflexivity. Qed.

(** C5, counterexample.  An image whose pixel size is still 0 x 0 is laid
    out like any other: with the FILL fit on A4 the call yields its layout
    (the full drawable area, 190 x 277 at (10, 10)) and saves the document.
    Nothing fails, also with a writer that tests the coordinates it is
    handed: they are numbers. *)
Lemma C5_zero_size_image_is_laid_out :
  map (fun img => (width img, height img)) unprobed_images = [(0%N, 0%N)]
  /\ (exists l pdf fname,
       generatePdf (T:=exact) unprobed_images (settingsOf A4 AUTO 10 FILL)
       = {| output := [l]; saved := Some (pdf, fname) |}
       /\ geometry l
          = (Fin 210, Fin 297, (Fin 10, Fin 10, Fin 190, Fin 277))
       /\ map (@page_images exact) pdf
          = [[drawn (imageOf "image/jpeg" 0 0) (rect l)]])
  /\ generatePdfWith hasCoordinates unprobed_images
       (settingsOf A4 AUTO 10 FILL)
     = Finished (generatePdf unprobed_images (settingsOf A4 AUTO 10 FILL)).
Proof.
  split; [reflexivity|]. split; [|reflexivity].
  do 3 eexists. split; [reflexivity|]. split; reflexivity.
Qed.


(** C7, the code at two portrait images with the Letter page size.  Both
    layouts are computed for a page of 215.9 x 279.4 mm, and the second
    page is added as 'letter'; the first page is the 'a4' page the document
    was created with, left as it is. *)
Lemma C7_first_letter_page_stays_a4 :
  exists first second fname,
    saved (generatePdf (T:=exact)
             [imageOf "image/jpeg" 1000 2000; imageOf "image/jpeg" 1000 2000]
             (settingsOf LETTER AUTO 10 CONTAIN))
    = Some ([first; second], fname)
    /\ (page_format first, page_orientation first) = (FormatName "a4", O_p)
    /\ (page_format second, page_orientation second) = (FormatName "letter", O_p)
    /\ map (fun l => (pageWidthMm l, pageHeightMm l))
           (output (generatePdf (T:=exact)
                      [imageOf "image/jpeg" 1000 2000;
                       imageOf "image/jpeg" 1000 2000]
                      (settingsOf LETTER AUTO 10 CONTAIN)))
       = [(ofQ (2159 # 10), ofQ (2794 # 10));
          (ofQ (2159 # 10), ofQ (2794 # 10))].
Proof.
  do 3 eexists. split; [reflexivity|]. repeat split.
Qed.

(* ================================================================== *)
(** ** The theorems with hypotheses, at concrete inputs *)


(** C3 at a 3000 x 2000 image. *)
Lemma C3_witness :
  (nth_error [imageOf "image/jpeg" 3000 2000] 0
   = Some (imageOf "image/jpeg" 3000 2000)
   /\ pageSize (settingsOf FIT_IMAGE AUTO 10 CONTAIN) = FIT_IMAGE)
  /\ exists l,
       nth_error (output (generatePdf (T:=exact)
                            [imageOf "image/jpeg" 3000 2000]
                            (settingsOf FIT_IMAGE AUTO 10 CONTAIN))) 0 = Some l
       /\ PageIsImage (imageOf "image/jpeg" 3000 2000) l
       /\ (forall settings',
             pageSize settings' = FIT_IMAGE ->
             option_map geometry
               (nth_error (output (generatePdf (T:=exact)
                                     [imageOf "image/jpeg" 3000 2000]
                                     settings')) 0)
             = Some (geometry l)).
Proof.
  split.
  - split; reflexivity.
  - apply (@C3_fit_image_page_is_the_image
             [imageOf "image/jpeg" 3000 2000]
             (settingsOf FIT_IMAGE AUTO 10 CONTAIN) 0
             (imageOf "image/jpeg" 3000 2000)); reflexivity.
Defined.

(** C4 at a square image on Letter, second in the list. *)
Lemma C4_witness :
  nth_error [scenario_image; imageOf "image/png" 512 512] 1
  = Some (imageOf "image/png" 512 512)
  /\ (exists l,
        nth_error (output (generatePdf (T:=exact)
                             [scenario_image; imageOf "image/png" 512 512]
                             (settingsOf LETTER AUTO 0 FILL))) 1 = Some l
        /\ OrientedPage (settingsOf LETTER AUTO 0 FILL)
                        (imageOf "image/png" 512 512) l)
  /\ map (fun l => (pageWidthMm l, pageHeightMm l))
         (output (generatePdf (T:=exact) [imageOf "image/jpeg" 3000 2000]
                    (settingsOf A4 AUTO 10 CONTAIN)))
     = [(ofQ 297, ofQ 210)].
Proof.
  split.
  - reflexivity.
  - apply (@C4_auto_orientation_and_landscape_swap
             [scenario_image; imageOf "image/png" 512 512]
             (settingsOf LETTER AUTO 0 FILL) 1
             (imageOf "image/png" 512 512)).
    reflexivity.
Defined.

(** C8 at the margin of 50 mm on portrait A4. *)
Lemma C8_witness :
  (nth_error [scenario_image] 0 = Some scenario_image
   /\ (0 < width scenario_image)%N
   /\ (0 < height scenario_image)%N
   /\ pageSize (settingsOf A4 PORTRAIT 50 CONTAIN) <> FIT_IMAGE
   /\ (0 <= margin (settingsOf A4 PORTRAIT 50 CONTAIN) <= 50)%Q)
  /\ exists l,
       nth_error (output (generatePdf (T:=exact) [scenario_image]
                            (settingsOf A4 PORTRAIT 50 CONTAIN))) 0 = Some l
       /\ Exact.ge (imageWidthMm l) (ofQ 0) = true
       /\ Exact.ge (imageHeightMm l) (ofQ 0) = true
       /\ Exact.ge (drawableWidth (settingsOf A4 PORTRAIT 50 CONTAIN) l)
                   (ofQ 110) = true
       /\ Exact.ge (drawableHeight (settingsOf A4 PORTRAIT 50 CONTAIN) l)
                   (ofQ 110) = true
       /\ (pageSize (settingsOf A4 PORTRAIT 50 CONTAIN) = A4 ->
           orientation (settingsOf A4 PORTRAIT 50 CONTAIN) = PORTRAIT ->
           margin (settingsOf A4 PORTRAIT 50 CONTAIN) = 50%Q ->
           drawableWidth (settingsOf A4 PORTRAIT 50 CONTAIN) l = ofQ 110
           /\ drawableHeight (settingsOf A4 PORTRAIT 50 CONTAIN) l = ofQ 197).
Proof.
  assert (Hstd : pageSize (settingsOf A4 PORTRAIT 50 CONTAIN) <> FIT_IMAGE)
    by discriminate.
  assert (Hm : (0 <= margin (settingsOf A4 PORTRAIT 50 CONTAIN) <= 50)%Q)
    by (split; unfold Qle; simpl; lia).
  split.
  - repeat split; try reflexivity; try exact Hstd; apply Hm.
  - apply (@C8_rectangle_is_never_negative
             [scenario_image] (settingsOf A4 PORTRAIT 50 CONTAIN) 0
             scenario_image);
      [reflexivity | reflexivity | reflexivity | exact Hstd | exact Hm].
Defined.

(** C10 at a 640 x 480 image: second of two images in one run, alone in the
    other, of another type and saved under another file name. *)
Lemma C10_witness :
  let images1 := [scenario_image; imageOf "image/png" 640 480] in
  let images2 := [imageOf "image/webp" 640 480] in
  let settings1 := settingsOf LETTER AUTO 10 CONTAIN in
  let settings2 :=
    {| pageSize := LETTER; orientation := AUTO; margin := 10;
       imageFit := CONTAIN; filename := "holiday.pdf" |} in
  (nth_error images1 1 = Some (imageOf "image/png" 640 480)
   /\ nth_error images2 0 = Some (imageOf "image/webp" 640 480)
   /\ width (imageOf "image/png" 640 480) = width (imageOf "image/webp" 640 480)
   /\ height (imageOf "image/png" 640 480) = height (imageOf "image/webp" 640 480)
   /\ pageSize settings1 = pageSize settings2
   /\ orientation settings1 = orientation settings2
   /\ margin settings1 = margin settings2
   /\ imageFit settings1 = imageFit settings2)
  /\ exists l1 l2,
       nth_error (output (generatePdf (T:=exact) images1 settings1)) 1 = Some l1
       /\ nth_error (output (generatePdf (T:=exact) images2 settings2)) 0 = Some l2
       /\ geometry l1 = geometry l2.
Proof.
  split.
  - repeat split.
  - apply (@C10_layout_depends_only_on_size_and_settings exact exact_number
             [scenario_image; imageOf "image/png" 640 480]
             [imageOf "image/webp" 640 480]
             (settingsOf LETTER AUTO 10 CONTAIN)
             {| pageSize := LETTER; orientation := AUTO; margin := 10;
                imageFit := CONTAIN; filename := "holiday.pdf" |}
             1 0 (imageOf "image/png" 640 480) (imageOf "image/webp" 640 480));
      reflexivity.
Defined.

(* ================================================================== *)
(** ** Uploads and the list of images *)

Section Uploads.

Implicit Types (img : UploadedImage) (images prev : list UploadedImage)
               (files : list File) (f : File) (a : ImageArray).

Lemma includes_validImageTypes (t : string) :
  includes validImageTypes t = true <-> validType t.
Proof.
  unfold includes, validImageTypes, validType. cbn [existsb].
  rewrite !orb_true_iff, !String.eqb_eq. intuition congruence.
Qed.

Lemma handleFiles_Some files validFiles :
  handleFiles files = Some validFiles ->
  validFiles = filter (fun f => includes validImageTypes (file_type f)) files
  /\ validFiles <> [].
Proof.
  unfold handleFiles.
  destruct (filter _ files) as [|f rest] eqn:E; [discriminate|].
  intros [= <-]. split; [reflexivity | discriminate].
Qed.

Lemma handleFiles_None files :
  handleFiles files = None <->
  Forall (fun f => ~ validType (file_type f)) files.
Proof.
  unfold handleFiles.
  destruct (filter _ files) as [|f rest] eqn:E; split; try discriminate.
  - intros _. apply Forall_forall. intros f Hin Hvalid.
    apply includes_validImageTypes in Hvalid.
    assert (Hf : In f (filter (fun f => includes validImageTypes (file_type f)) files))
      by (apply filter_In; auto).
    rewrite E in Hf. exact Hf.
  - reflexivity.
  - intros Hall. exfalso.
    assert (Hf : In f (filter (fun f => includes validImageTypes (file_type f)) files))
      by (rewrite E; now left).
    apply filter_In in Hf. destruct Hf as (Hin & Hvalid).
    rewrite Forall_forall in Hall.
    apply (Hall f Hin), includes_validImageTypes, Hvalid.
Qed.

(** X1. A drop or a file selection without files does nothing.  With
    files, [onUpload] gets the files whose type is one of image/jpeg,
    image/png, image/webp and image/jpg, in their order, and never an empty
    list; the alert is shown exactly when files were given and none of them
    has such a type. *)
Theorem X1_uploader_outcome (files : option (list File)) :
  handleChange files = handleDrop files
  /\ match handleDrop files with
     | Ignored => files = None \/ files = Some []
     | Alerted =>
         exists l, files = Some l /\ l <> []
                   /\ Forall (fun f => ~ validType (file_type f)) l
     | Uploaded validFiles =>
         exists l, files = Some l
                   /\ validFiles
                      = filter (fun f => includes validImageTypes (file_type f)) l
                   /\ validFiles <> []
                   /\ (forall f, In f validFiles
                                 <-> In f l /\ validType (file_type f))
     end.
Proof.
  split; [reflexivity|].
  destruct files as [[|f rest]|]; cbn [handleDrop]; [now right | | now left].
  destruct (handleFiles (f :: rest)) as [validFiles|] eqn:E.
  - exists (f :: rest). apply handleFiles_Some in E. destruct E as (-> & Hne).
    split; [reflexivity|]. split; [reflexivity|]. split; [exact Hne|].
    intros f0. now rewrite filter_In, includes_validImageTypes.
  - exists (f :: rest). split; [reflexivity|]. split; [discriminate|].
    now apply handleFiles_None.
Qed.

Lemma newImages_files fresh files : forall k,
  map file (newImages fresh k files) = files
  /\ map id (newImages fresh k files) = map fresh (seq k (List.length files))
  /\ Forall (fun img => width img = 0%N /\ height img = 0%N /\ fromItsFile img)
            (newImages fresh k files).
Proof.
  induction files as [|f rest IH]; intros k; cbn [newImages map List.length seq].
  - repeat split. constructor.
  - destruct (IH (S k)) as (Hf & Hi & Ha). rewrite Hf, Hi.
    repeat split. constructor; [|exact Ha]. repeat split.
Qed.

(** X2. [handleUpload] keeps the images already there and appends one image
    per file, in file order: each with the identifier drawn for it, the
    object URL, name and type of its file, and the pixel size 0 x 0. *)
Theorem X2_upload_appends_unprobed_images fresh prev files :
  let images := handleUpload fresh prev files in
  firstn (List.length prev) images = prev
  /\ map file (skipn (List.length prev) images) = files
  /\ map id (skipn (List.length prev) images)
     = map fresh (seq 0 (List.length files))
  /\ Forall (fun img => width img = 0%N /\ height img = 0%N /\ fromItsFile img)
            (skipn (List.length prev) images).
Proof.
  unfold handleUpload. cbv zeta.
  rewrite firstn_app, Nat.sub_diag, firstn_all, firstn_O, app_nil_r.
  rewrite skipn_app, Nat.sub_diag, skipn_all, skipn_O. cbn [app].
  split; [reflexivity|]. apply newImages_files.
Qed.

Lemma onload_map ident w h prev :
  onload ident w h prev
  = map (fun p => if String.eqb (id p) ident then resized w h p else p) prev.
Proof. reflexivity. Qed.

(** X3. When an image has been decoded, [onload] changes the width and
    height of the images with its identifier and nothing else: every image
    keeps its place, identifier, file, URL, name and type, and an image
    with another identifier is left as it is. *)
Theorem X3_onload_sets_only_the_size ident w h prev :
  Forall2 (fun p q =>
             id q = id p /\ file q = file p /\ previewUrl q = previewUrl p
             /\ name q = name p /\ type q = type p
             /\ (id p = ident -> width q = w /\ height q = h)
             /\ (id p <> ident -> q = p))
          prev (onload ident w h prev).
Proof.
  rewrite onload_map.
  induction prev as [|p rest IH]; cbn [map]; constructor; [|exact IH].
  destruct (String.eqb_spec (id p) ident) as [E|E]; cbn.
  - repeat split; intros; congruence.
  - repeat split; intros; congruence.
Qed.

Lemma onload_other ident w h images :
  ~ In ident (map id images) -> onload ident w h images = images.
Proof.
  rewrite onload_map.
  induction images as [|p rest IH]; cbn [map In]; intros Hnot; [reflexivity|].
  destruct (String.eqb_spec (id p) ident) as [E|E]; [tauto|].
  f_equal. apply IH. tauto.
Qed.

(** X4. With identifiers that are all different, [onload] for the image at
    position [k] gives that image its size and leaves the others as they
    are. *)
Theorem X4_onload_with_distinct_ids images k img w h :
  NoDup (map id images) ->
  nth_error images k = Some img ->
  onload (id img) w h images
  = firstn k images ++ resized w h img :: skipn (S k) images.
Proof.
  revert k. induction images as [|p rest IH]; intros k Hnd Hk.
  - destruct k; discriminate.
  - cbn [map] in Hnd. inversion Hnd as [|? ? Hnotin Hnd']; subst.
    destruct k as [|k]; cbn [nth_error] in Hk.
    + injection Hk as ->. cbn [firstn skipn app]. rewrite onload_map. cbn [map].
      rewrite String.eqb_refl. f_equal.
      rewrite <- onload_map. now apply onload_other.
    + cbn [firstn skipn app]. rewrite onload_map. cbn [map].
      destruct (String.eqb_spec (id p) (id img)) as [E|E].
      * exfalso. apply Hnotin. rewrite E. apply in_map.
        eapply nth_error_In, Hk.
      * f_equal. rewrite <- onload_map. now apply IH.
Qed.

Lemma remaining_absent ident images :
  ~ In ident (map id images) -> remaining (removeImage ident images) = images.
Proof.
  cbn [removeImage remaining].
  induction images as [|p rest IH]; cbn [map In filter]; intros Hnot;
    [reflexivity|].
  destruct (String.eqb_spec (id p) ident) as [E|E]; [tauto|].
  cbn [negb]. f_equal. apply IH. tauto.
Qed.

Lemma find_by_id ident images :
  match find (fun i => String.eqb (id i) ident) images with
  | Some img => In img images /\ id img = ident
  | None => ~ In ident (map id images)
  end.
Proof.
  induction images as [|p rest IH]; cbn [find map In]; [tauto|].
  destruct (String.eqb_spec (id p) ident) as [E|E].
  - split; [now left | exact E].
  - destruct (find _ rest); [split; [right|]; apply IH | tauto].
Qed.

(** X5. [removeImage] takes out the images with the identifier, all of
    them, and no other image.  An identifier no image has changes nothing
    and revokes nothing; otherwise the URL revoked is that of an image with
    the identifier, which is gone afterwards. *)
Theorem X5_removeImage_removes_by_id ident images :
  (forall img, In img (remaining (removeImage ident images))
               <-> In img images /\ id img <> ident)
  /\ (revoked (removeImage ident images) = None
      <-> ~ In ident (map id images))
  /\ (~ In ident (map id images) ->
      remaining (removeImage ident images) = images)
  /\ (forall url, revoked (removeImage ident images) = Some url ->
        exists img, In img images /\ id img = ident
                    /\ url = previewUrl img
                    /\ ~ In img (remaining (removeImage ident images))).
Proof.
  assert (Hmem : forall img, In img (remaining (removeImage ident images))
                             <-> In img images /\ id img <> ident).
  { intros img. cbn [removeImage remaining]. rewrite filter_In.
    destruct (String.eqb_spec (id img) ident); cbn [negb];
      intuition congruence. }
  split; [exact Hmem|].
  assert (Hfind := find_by_id ident images).
  cbn [removeImage revoked].
  destruct (find _ images) as [found|]; cbn [option_map].
  - destruct Hfind as (Hin & Hid). split; [|split].
    + split; [discriminate|]. intros Hnot. exfalso. apply Hnot.
      rewrite <- Hid. now apply in_map.
    + apply remaining_absent.
    + intros url [= <-]. exists found. repeat split; try assumption.
      intros Hrem. apply Hmem in Hrem. tauto.
  - split; [|split].
    + tauto.
    + apply remaining_absent.
    + discriminate.
Qed.

(** X6. With identifiers that are all different, removing the image at
    position [k] revokes its URL and leaves the other images in their
    order. *)
Theorem X6_removeImage_with_distinct_ids images k img :
  NoDup (map id images) ->
  nth_error images k = Some img ->
  removeImage (id img) images
  = {| revoked := Some (previewUrl img);
       remaining := firstn k images ++ skipn (S k) images |}.
Proof.
  unfold removeImage. revert k.
  induction images as [|p rest IH]; intros k Hnd Hk.
  - destruct k; discriminate.
  - cbn [map] in Hnd. inversion Hnd as [|? ? Hnotin Hnd']; subst.
    destruct k as [|k]; cbn [nth_error] in Hk.
    + injection Hk as ->. cbn [find filter firstn skipn app].
      rewrite String.eqb_refl. cbn [negb option_map]. f_equal.
      apply (remaining_absent (id img) rest Hnotin).
    + cbn [find filter firstn skipn app].
      destruct (String.eqb_spec (id p) (id img)) as [E|E].
      * exfalso. apply Hnotin. rewrite E. apply in_map.
        eapply nth_error_In, Hk.
      * cbn [negb]. specialize (IH k Hnd' Hk).
        injection IH as Hr Hrem. now rewrite Hr, Hrem.
Qed.

(** Array reads and writes in the middle of an array. *)
Lemma at_index_middle a e rest :
  at_index (a ++ e :: rest) (List.length a) = e.
Proof. unfold at_index. now rewrite nth_middle. Qed.

Lemma assign_middle a v e rest :
  assign (List.length a) v (a ++ e :: rest) = a ++ v :: rest.
Proof. induction a as [|x a IH]; cbn; [reflexivity | now rewrite IH]. Qed.

Lemma moveImage_right_swap (before : list UploadedImage) x y after :
  moveImage (List.length before) right (before ++ x :: y :: after)
  = map Some (before ++ y :: x :: after).
Proof.
  unfold moveImage. cbv zeta. rewrite !map_app. cbn [map].
  set (a := map Some before).
  assert (La : List.length a = List.length before) by apply length_map.
  rewrite <- La.
  replace ((0 <=? Z.of_nat (List.length a) + 1)%Z
           && (Z.of_nat (List.length a) + 1
               <? Z.of_nat (List.length (a ++ Some x :: Some y :: map Some after)))%Z)
    with true.
  2:{ symmetry. apply andb_true_iff. split; [apply Z.leb_le; lia|].
      apply Z.ltb_lt. rewrite length_app. cbn [List.length]. lia. }
  replace (Z.to_nat (Z.of_nat (List.length a) + 1))
    with (List.length (a ++ [Some x])) by (rewrite length_app; cbn; lia).
  rewrite at_index_middle.
  replace (a ++ Some x :: Some y :: map Some after)
    with ((a ++ [Some x]) ++ Some y :: map Some after) at 1
    by now rewrite <- app_assoc.
  rewrite at_index_middle, assign_middle.
  replace (a ++ Some y :: Some y :: map Some after)
    with ((a ++ [Some y]) ++ Some y :: map Some after)
    by now rewrite <- app_assoc.
  replace (List.length (a ++ [Some x])) with (List.length (a ++ [Some y]))
    by (rewrite !length_app; reflexivity).
  rewrite assign_middle. now rewrite <- app_assoc.
Qed.

Lemma moveImage_left_swap (before : list UploadedImage) x y after :
  moveImage (S (List.length before)) left (before ++ x :: y :: after)
  = map Some (before ++ y :: x :: after).
Proof.
  unfold moveImage. cbv zeta. rewrite !map_app. cbn [map].
  set (a := map Some before).
  assert (La : List.length a = List.length before) by apply length_map.
  rewrite <- La.
  replace ((0 <=? Z.of_nat (S (List.length a)) - 1)%Z
           && (Z.of_nat (S (List.length a)) - 1
               <? Z.of_nat (List.length (a ++ Some x :: Some y :: map Some after)))%Z)
    with true.
  2:{ symmetry. apply andb_true_iff. split; [apply Z.leb_le; lia|].
      apply Z.ltb_lt. rewrite length_app. cbn [List.length]. lia. }
  replace (Z.to_nat (Z.of_nat (S (List.length a)) - 1))
    with (List.length a) by lia.
  rewrite at_index_middle.
  replace (S (List.length a)) with (List.length (a ++ [Some x]))
    by (rewrite length_app; cbn; lia).
  replace (a ++ Some x :: Some y :: map Some after)
    with ((a ++ [Some x]) ++ Some y :: map Some after)
    by now rewrite <- app_assoc.
  rewrite at_index_middle, assign_middle.
  rewrite <- app_assoc. cbn [app]. rewrite assign_middle. reflexivity.
Qed.

Lemma moveImage_left_first images :
  moveImage 0 left images = map Some images.
Proof. reflexivity. Qed.

Lemma moveImage_right_last idx images :
  List.length images <= S idx -> moveImage idx right images = map Some images.
Proof.
  intros Hlen. unfold moveImage. cbv zeta. rewrite length_map.
  replace (Z.of_nat idx + 1 <? Z.of_nat (List.length images))%Z with false
    by (symmetry; apply Z.ltb_ge; lia).
  now rewrite andb_false_r.
Qed.

Lemma moveImage_left_beyond idx images :
  List.length images < idx -> moveImage idx left images = map Some images.
Proof.
  intros Hlen. unfold moveImage. cbv zeta. rewrite length_map.
  replace (Z.of_nat idx - 1 <? Z.of_nat (List.length images))%Z with false
    by (symmetry; apply Z.ltb_ge; lia).
  now rewrite andb_false_r.
Qed.

Lemma assign_past_end a v e :
  assign (S (List.length a)) v (a ++ [e]) = a ++ [e; v].
Proof.
  induction a as [|e0 a IH]; [reflexivity|].
  change (e0 :: assign (S (List.length a)) v (a ++ [e]) = e0 :: a ++ [e; v]).
  now rewrite IH.
Qed.

Lemma two_neighbours (images : list UploadedImage) idx :
  S idx < List.length images ->
  exists before x y after,
    images = before ++ x :: y :: after /\ List.length before = idx.
Proof.
  intros Hlen.
  destruct (nth_error images idx) as [x|] eqn:Hx;
    [|apply nth_error_None in Hx; lia].
  destruct (nth_error images (S idx)) as [y|] eqn:Hy;
    [|apply nth_error_None in Hy; lia].
  apply nth_error_split in Hx. destruct Hx as (before & tail & -> & Hb).
  exists before, x. subst idx.
  rewrite nth_error_app2 in Hy by lia.
  replace (S (List.length before) - List.length before) with 1 in Hy by lia.
  destruct tail as [|y' after]; [discriminate|]. injection Hy as ->.
  now exists y, after.
Qed.

Lemma map_Some_inj (l l' : list UploadedImage) :
  map Some l = map Some l' -> l = l'.
Proof.
  revert l'. induction l as [|x l IH]; intros [|y l']; cbn [map];
    try discriminate; [reflexivity|].
  intros [= -> E]. f_equal. now apply IH.
Qed.

(** Moving the image of a row exchanges it with a neighbour or leaves the
    list as it is: no image is lost, none appears, no element is left
    undefined. *)
Lemma moveImage_of_a_row idx direction images :
  idx < List.length images ->
  exists images', moveImage idx direction images = map Some images'
                  /\ Permutation images images'.
Proof.
  intros Hidx. destruct direction.
  - destruct idx as [|j]; [exists images; split; [reflexivity|apply Permutation_refl]|].
    destruct (@two_neighbours images j Hidx) as (before & x & y & after & -> & <-).
    exists (before ++ y :: x :: after). split; [apply moveImage_left_swap|].
    apply Permutation_app_head, perm_swap.
  - destruct (Nat.lt_ge_cases (S idx) (List.length images)) as [Hin|Hout].
    + destruct (@two_neighbours images idx Hin) as (before & x & y & after & -> & <-).
      exists (before ++ y :: x :: after). split; [apply moveImage_right_swap|].
      apply Permutation_app_head, perm_swap.
    + exists images. split; [now apply moveImage_right_last|apply Permutation_refl].
Qed.

(** The index just past the end (no button passes it): moving left
    exchanges the last image with the element beyond the array, which
    leaves [undefined] in its place. *)
Lemma moveImage_left_past_end (before : list UploadedImage) x :
  moveImage (List.length (before ++ [x])) left (before ++ [x])
  = map Some before ++ [None; Some x].
Proof.
  unfold moveImage. cbv zeta. rewrite !map_app. cbn [map].
  set (a := map Some before).
  assert (La : List.length (a ++ [Some x]) = S (List.length a))
    by (rewrite length_app; cbn; lia).
  replace (List.length (before ++ [x])) with (S (List.length a))
    by (unfold a; rewrite length_app, length_map; cbn; lia).
  rewrite La.
  replace ((0 <=? Z.of_nat (S (List.length a)) - 1)%Z
           && (Z.of_nat (S (List.length a)) - 1 <? Z.of_nat (S (List.length a)))%Z)
    with true
    by (symmetry; apply andb_true_iff; split;
        [apply Z.leb_le; lia | apply Z.ltb_lt; lia]).
  replace (Z.to_nat (Z.of_nat (S (List.length a)) - 1))
    with (List.length a) by lia.
  rewrite at_index_middle.
  assert (Hpast : at_index (a ++ [Some x]) (S (List.length a)) = None).
  { unfold at_index. apply nth_overflow. rewrite La. lia. }
  rewrite Hpast, assign_past_end. apply assign_middle.
Qed.

(** The lists of images the page can be in hold what was uploaded: every
    image has the URL, name and type of its file, and a valid type. *)
Lemma reachable_images_from_files images :
  reachable images ->
  Forall (fun img => fromItsFile img /\ validType (type img)) images.
Proof.
  induction 1 as [ | fresh files validFiles images _ IH Hvalid
                   | ident w h images _ IH
                   | ident images _ IH
                   | idx direction images images' _ IH Hidx Hmove ].
  - constructor.
  - unfold handleUpload. apply Forall_app. split; [exact IH|].
    apply handleFiles_Some in Hvalid. destruct Hvalid as (-> & _).
    assert (Hnew := newImages_files fresh
              (filter (fun f => includes validImageTypes (file_type f)) files) 0).
    destruct Hnew as (Hfiles & _ & Hall).
    rewrite Forall_forall in *. intros img Hin.
    destruct (Hall img Hin) as (_ & _ & Hfrom). split; [exact Hfrom|].
    destruct Hfrom as (_ & _ & ->).
    assert (Hf : In (file img)
                    (filter (fun f => includes validImageTypes (file_type f)) files)).
    { rewrite <- Hfiles. now apply in_map. }
    apply filter_In in Hf. now apply includes_validImageTypes.
  - rewrite onload_map. rewrite Forall_forall in *. intros q Hin.
    apply in_map_iff in Hin. destruct Hin as (p & <- & Hp).
    specialize (IH p Hp). destruct (String.eqb (id p) ident); exact IH.
  - cbn [removeImage remaining]. rewrite Forall_forall in *.
    intros img Hin. apply filter_In in Hin. now apply IH.
  - destruct (@moveImage_of_a_row idx direction images Hidx)
      as (images'' & Hmove' & Hperm).
    rewrite Hmove in Hmove'. apply map_Some_inj in Hmove'. subst images''.
    eapply Permutation_Forall; eassumption.
Qed.

(** X7. Moving the image at a position right, or the image after it left,
    exchanges the two neighbours and leaves every other image in its place:
    the list is a permutation of the old one, with no element undefined. *)
Theorem X7_moveImage_exchanges_neighbours (before : list UploadedImage) x y after :
  moveImage (List.length before) right (before ++ x :: y :: after)
  = map Some (before ++ y :: x :: after)
  /\ moveImage (S (List.length before)) left (before ++ x :: y :: after)
     = map Some (before ++ y :: x :: after)
  /\ Permutation (before ++ x :: y :: after) (before ++ y :: x :: after).
Proof.
  split; [apply moveImage_right_swap|]. split; [apply moveImage_left_swap|].
  apply Permutation_app_head, perm_swap.
Qed.

(** *** [moveImage] at any index *)

Lemma Fin_inj (p q : Q) : Fin p = Fin q -> p = q.
Proof. now intros [= ->]. Qed.

Lemma Qred_inject_Z z : Qred (inject_Z z) = inject_Z z.
Proof.
  unfold Qred, inject_Z.
  assert (Hg := Z.ggcd_gcd z 1). assert (Hd := Z.ggcd_correct_divisors z 1).
  change (Zpos 1) with 1%Z.
  destruct (Z.ggcd z 1) as [g [aa bb]]. cbn [fst snd] in *.
  rewrite Z.gcd_1_r in Hg. subst g. destruct Hd as (Ha & Hb).
  rewrite Z.mul_1_l in Ha, Hb. subst aa bb. reflexivity.
Qed.

Lemma isInteger_Qred q z : (q == inject_Z z)%Q -> Qred q = inject_Z z.
Proof. intros E. rewrite <- Qred_inject_Z. now apply Qred_complete. Qed.

Lemma add_integer q z : (q == inject_Z z)%Q ->
  add (Fin q) (ofQ 1) = Fin (inject_Z (z + 1)).
Proof.
  intros E. change (add (Fin q) (ofQ 1)) with (Fin (Qred (q + inject_Z 1))).
  f_equal. apply isInteger_Qred. rewrite E. now rewrite <- inject_Z_plus.
Qed.

Lemma sub_integer q z : (q == inject_Z z)%Q ->
  sub (Fin q) (ofQ 1) = Fin (inject_Z (z - 1)).
Proof.
  intros E. change (sub (Fin q) (ofQ 1)) with (Fin (Qred (q - inject_Z 1))).
  f_equal. apply isInteger_Qred. rewrite E.
  unfold Qminus. rewrite <- inject_Z_opp, <- inject_Z_plus. reflexivity.
Qed.

Lemma ge_integer t : Exact.ge (Fin (inject_Z t)) (ofQ 0) = (0 <=? t)%Z.
Proof.
  cbn. unfold Qle_bool. cbn. now rewrite Z.mul_1_r.
Qed.

Lemma lt_integer t n :
  lt (Fin (inject_Z t)) (ofN (N.of_nat n)) = (t <? Z.of_nat n)%Z.
Proof.
  unfold ofN. cbn [ofQ exact_number lt Exact.lt Exact.gt].
  rewrite Qred_inject_Z. unfold Exact.Qltb, Qle_bool. cbn [Qnum Qden inject_Z].
  rewrite !Z.mul_1_r, nat_N_Z. rewrite Z.ltb_antisym. reflexivity.
Qed.

Lemma arrayIndex_integer q z : (q == inject_Z z)%Q ->
  arrayIndex (Fin q) = if (0 <=? z)%Z then Some (Z.to_nat z) else None.
Proof.
  intros E. unfold arrayIndex. cbv zeta. rewrite (isInteger_Qred E).
  reflexivity.
Qed.

Lemma arrayIndex_Some n i :
  arrayIndex n = Some i -> isInteger n (Z.of_nat i).
Proof.
  destruct n as [q| | |]; try discriminate. unfold arrayIndex. cbv zeta.
  destruct (Qden (Qred q) =? 1)%positive eqn:Hd; [|discriminate].
  destruct (0 <=? Qnum (Qred q))%Z eqn:Hn; [|discriminate].
  cbn [andb]. intros [= <-]. exists q. split; [reflexivity|].
  apply Pos.eqb_eq in Hd. apply Z.leb_le in Hn.
  rewrite Z2Nat.id by exact Hn.
  rewrite <- (Qred_correct q) at 1.
  destruct (Qred q) as [a b]. cbn in *. subst b. reflexivity.
Qed.

(** The model of the rows is this one at the index of a row. *)
Lemma moveImageAt_row index idx direction images :
  isInteger index (Z.of_nat idx) ->
  moveImageAt index direction images = moveImage idx direction images.
Proof.
  intros (q & -> & E). unfold moveImageAt, moveImage, read, write. cbv zeta.
  rewrite (arrayIndex_integer E).
  replace (0 <=? Z.of_nat idx)%Z with true by (symmetry; apply Z.leb_le; lia).
  rewrite Nat2Z.id.
  destruct direction.
  - rewrite (sub_integer E), ge_integer, lt_integer.
    destruct ((0 <=? Z.of_nat idx - 1)%Z) eqn:H0; [|reflexivity].
    cbn [andb].
    destruct (Z.of_nat idx - 1 <? Z.of_nat (List.length (map Some images)))%Z;
      [|reflexivity].
    rewrite (@arrayIndex_integer (inject_Z (Z.of_nat idx - 1)) (Z.of_nat idx - 1))
      by reflexivity.
    rewrite H0. reflexivity.
  - rewrite (add_integer E), ge_integer, lt_integer.
    destruct ((0 <=? Z.of_nat idx + 1)%Z) eqn:H0; [|reflexivity].
    cbn [andb].
    destruct (Z.of_nat idx + 1 <? Z.of_nat (List.length (map Some images)))%Z;
      [|reflexivity].
    rewrite (@arrayIndex_integer (inject_Z (Z.of_nat idx + 1)) (Z.of_nat idx + 1))
      by reflexivity.
    rewrite H0. reflexivity.
Qed.

(** The index -1, moved right: the first image is exchanged with the
    property [-1] of the array, which leaves [undefined] in its place. *)
Lemma moveImageAt_right_before_start index x rest :
  isInteger index (-1) ->
  moveImageAt index right (x :: rest) = None :: map Some rest.
Proof.
  intros (q & -> & E). unfold moveImageAt, read, write. cbv zeta.
  rewrite (arrayIndex_integer E), (add_integer E), ge_integer, lt_integer.
  change (-1 + 1)%Z with 0%Z. cbn [Z.leb Z.compare andb].
  replace (0 <? Z.of_nat (List.length (map Some (x :: rest))))%Z with true
    by (symmetry; apply Z.ltb_lt; cbn [map List.length]; lia).
  reflexivity.
Qed.

(** A negative integer other than -1 right: nothing changes. *)
Lemma moveImageAt_negative index z direction images :
  isInteger index z -> (z < 0)%Z ->
  (direction = right -> z = (-1)%Z -> images = []) ->
  moveImageAt index direction images = map Some images.
Proof.
  intros (q & -> & E) Hz Hnot. unfold moveImageAt, read, write. cbv zeta.
  destruct direction.
  - rewrite (sub_integer E), ge_integer.
    replace (0 <=? z - 1)%Z with false by (symmetry; apply Z.leb_gt; lia).
    reflexivity.
  - rewrite (add_integer E), ge_integer, lt_integer.
    destruct (Z.eq_dec z (-1)) as [->|Hne].
    + rewrite (Hnot eq_refl eq_refl). reflexivity.
    + replace (0 <=? z + 1)%Z with false by (symmetry; apply Z.leb_gt; lia).
      reflexivity.
Qed.

(** Without rounding, a number that is not an integer names no element, and
    neither does its neighbour: nothing changes. *)
Lemma arrayIndex_None_step n :
  arrayIndex n = None -> (forall z, ~ isInteger n z) ->
  arrayIndex (add n (ofQ 1)) = None /\ arrayIndex (sub n (ofQ 1)) = None.
Proof.
  intros _ Hnot. destruct n as [q| | |]; try (split; reflexivity).
  split.
  - destruct (arrayIndex (add (Fin q) (ofQ 1))) as [i|] eqn:Hi; [|reflexivity].
    apply arrayIndex_Some in Hi. destruct Hi as (q' & Hq' & E).
    exfalso. apply (Hnot (Z.of_nat i - 1)%Z). exists q. split; [reflexivity|].
    change (add (Fin q) (ofQ 1)) with (Fin (Qred (q + 1))) in Hq'.
    apply Fin_inj in Hq'. subst q'. rewrite Qred_correct in E.
    unfold Z.sub. rewrite inject_Z_plus, inject_Z_opp, <- E.
    change (inject_Z 1) with 1%Q. ring.
  - destruct (arrayIndex (sub (Fin q) (ofQ 1))) as [i|] eqn:Hi; [|reflexivity].
    apply arrayIndex_Some in Hi. destruct Hi as (q' & Hq' & E).
    exfalso. apply (Hnot (Z.of_nat i + 1)%Z). exists q. split; [reflexivity|].
    change (sub (Fin q) (ofQ 1)) with (Fin (Qred (q - 1))) in Hq'.
    apply Fin_inj in Hq'. subst q'. rewrite Qred_correct in E.
    rewrite inject_Z_plus, <- E. change (inject_Z 1) with 1%Q. ring.
Qed.

Lemma moveImageAt_no_integer index direction images :
  (forall z, ~ isInteger index z) ->
  moveImageAt index direction images = map Some images.
Proof.
  intros Hnot.
  assert (Hi : arrayIndex index = None).
  { destruct (arrayIndex index) as [i|] eqn:Hi; [|reflexivity].
    apply arrayIndex_Some in Hi. now apply Hnot in Hi. }
  destruct (arrayIndex_None_step Hi Hnot) as (Hadd & Hsub).
  unfold moveImageAt, read, write. cbv zeta.
  rewrite Hi. destruct direction; [rewrite Hsub | rewrite Hadd];
    match goal with |- (if ?c then _ else _) = _ => destruct c end; reflexivity.
Qed.

Lemma integer_or_not n : (exists z, isInteger n z) \/ (forall z, ~ isInteger n z).
Proof.
  destruct n as [q| | |];
    try (right; intros z (q' & Hq' & _); discriminate).
  destruct (Pos.eq_dec (Qden (Qred q)) 1) as [Hd|Hd].
  - left. exists (Qnum (Qred q)), q. split; [reflexivity|].
    rewrite <- (Qred_correct q) at 1.
    destruct (Qred q) as [a b]. cbn in *. subst b. reflexivity.
  - right. intros z (q' & [= <-] & E). apply Hd.
    now rewrite (isInteger_Qred E).
Qed.

Lemma isInteger_unique n z z' : isInteger n z -> isInteger n z' -> z = z'.
Proof.
  intros (q & -> & E) (q' & Hq' & E'). apply Fin_inj in Hq'. subst q'.
  rewrite E in E'. unfold Qeq in E'. cbn in E'. lia.
Qed.

Lemma not_In_None_map (l : list UploadedImage) : ~ In None (map Some l).
Proof. intros Hin. apply in_map_iff in Hin. now destruct Hin as (img & Himg & _). Qed.

Lemma last_split (images : list UploadedImage) :
  images <> [] -> exists before x, images = before ++ [x].
Proof.
  intros Hne. destruct (exists_last Hne) as (before & x & ->). now exists before, x.
Qed.

(** Every call, classified. *)
Lemma moveImageAt_cases index direction images :
  (exists images', moveImageAt index direction images = map Some images'
                   /\ Permutation images images')
  \/ (direction = left /\ isInteger index (Z.of_nat (List.length images))
      /\ exists before x, images = before ++ [x]
           /\ moveImageAt index direction images
              = map Some before ++ [None; Some x])
  \/ (direction = right /\ isInteger index (-1)
      /\ exists x rest, images = x :: rest
           /\ moveImageAt index direction images = None :: map Some rest).
Proof.
  destruct (integer_or_not index) as [(z & Hz)|Hnot].
  2:{ left. exists images. split; [now apply moveImageAt_no_integer|reflexivity]. }
  destruct (Z.lt_ge_cases z 0) as [Hneg|Hpos].
  - destruct direction.
    + left. exists images. split; [|reflexivity].
      apply (moveImageAt_negative (z:=z)); [assumption..|discriminate].
    + destruct (Z.eq_dec z (-1)) as [->|Hne].
      * destruct images as [|x rest].
        -- left. exists []. split; [|reflexivity].
           now apply (moveImageAt_negative (z:=-1)).
        -- right. right. split; [reflexivity|]. split; [exact Hz|].
           exists x, rest. split; [reflexivity|].
           now apply moveImageAt_right_before_start.
      * left. exists images. split; [|reflexivity].
        apply (moveImageAt_negative (z:=z)); [assumption..|]. intros _ E. lia.
  - assert (Hrow : isInteger index (Z.of_nat (Z.to_nat z)))
      by (rewrite Z2Nat.id by lia; exact Hz).
    rewrite (@moveImageAt_row index (Z.to_nat z) direction images Hrow).
    set (idx := Z.to_nat z) in *.
    destruct (Nat.lt_ge_cases idx (List.length images)) as [Hin|Hout].
    + left. now apply moveImage_of_a_row.
    + destruct direction.
      * destruct (Nat.eq_dec idx (List.length images)) as [Heq|Hne].
        -- destruct images as [|x0 rest0] eqn:Himages.
           ++ left. exists []. cbn in Heq. rewrite Heq. split; reflexivity.
           ++ right. left. split; [reflexivity|]. rewrite <- Heq.
              split; [exact Hrow|].
              destruct (@last_split (x0 :: rest0)) as (before & x & Hsplit);
                [discriminate|].
              exists before, x. split; [exact Hsplit|].
              rewrite Heq, Hsplit. apply moveImage_left_past_end.
        -- left. exists images. split; [|reflexivity].
           apply moveImage_left_beyond. lia.
      * left. exists images. split; [|reflexivity].
        apply moveImage_right_last. lia.
Qed.

Lemma isInteger_numberOf (i : Index) z :
  isInteger (numberOf i) z <-> i = Whole z.
Proof.
  split.
  - intros (q & Hq & E). destruct i as [z0|[|]|]; try discriminate.
    cbn [numberOf] in Hq. apply Fin_inj in Hq. subst q.
    unfold Qeq in E. cbn in E. f_equal. lia.
  - intros ->. exists (inject_Z z). split; reflexivity.
Qed.

(** X8. At the ends [moveImage] changes nothing: left at the first
    position, right at the last position or beyond, left beyond the end,
    and wherever the button of the row is disabled.  Called with any
    integer, an infinity or NaN, it agrees with the model of the rows at
    the index of a row, and it leaves an undefined element in exactly two
    cases, both on a non-empty list: the index just past the end moved
    left (the last image goes one place beyond the array) and the index -1
    moved right (the first image goes to the property [-1] and is no
    element any more).  In every other case the result holds the same
    images, each defined. *)
Theorem X8_moveImage_at_the_ends_and_past_them
    (index : Index) idx direction images :
  moveImage 0 left images = map Some images
  /\ (List.length images <= S idx ->
      moveImage idx right images = map Some images)
  /\ (List.length images < idx ->
      moveImage idx left images = map Some images)
  /\ (idx < List.length images ->
      moveDisabled idx direction images = true ->
      moveImage idx direction images = map Some images)
  /\ (forall before x,
        moveImage (List.length (before ++ [x])) left (before ++ [x])
        = map Some before ++ [None; Some x])
  /\ moveImageAt (numberOf (Whole (Z.of_nat idx))) direction images
     = moveImage idx direction images
  /\ (In None (moveImageAt (numberOf index) direction images)
      <-> images <> []
          /\ ((direction = left
               /\ index = Whole (Z.of_nat (List.length images)))
              \/ (direction = right /\ index = Whole (-1))))
  /\ (forall before x,
        moveImageAt (numberOf (Whole (Z.of_nat (List.length (before ++ [x])))))
          left (before ++ [x])
        = map Some before ++ [None; Some x])
  /\ (forall x rest,
        moveImageAt (numberOf (Whole (-1))) right (x :: rest)
        = None :: map Some rest)
  /\ (~ In None (moveImageAt (numberOf index) direction images) ->
      exists images',
        moveImageAt (numberOf index) direction images = map Some images'
        /\ Permutation images images').
Proof.
  split; [reflexivity|]. split; [apply moveImage_right_last|].
  split; [apply moveImage_left_beyond|]. split.
  { intros Hidx Hdis. destruct direction; cbn [moveDisabled] in Hdis.
    - apply Nat.eqb_eq in Hdis. subst idx. reflexivity.
    - apply Z.eqb_eq in Hdis. apply moveImage_right_last. lia. }
  split; [apply moveImage_left_past_end|].
  split; [apply moveImageAt_row; now apply isInteger_numberOf|].
  assert (Hpast : forall before x,
            moveImageAt (numberOf (Whole (Z.of_nat (List.length (before ++ [x])))))
              left (before ++ [x])
            = map Some before ++ [None; Some x]).
  { intros before x.
    rewrite (@moveImageAt_row _ (List.length (before ++ [x])) left
               (before ++ [x]))
      by now apply isInteger_numberOf.
    apply moveImage_left_past_end. }
  assert (Hbefore : forall x rest,
            moveImageAt (numberOf (Whole (-1))) right (x :: rest)
            = None :: map Some rest).
  { intros x rest. apply moveImageAt_right_before_start.
    now apply isInteger_numberOf. }
  split; [|split; [exact Hpast | split; [exact Hbefore|]]].
  - split.
    + intros Hin.
      destruct (moveImageAt_cases (numberOf index) direction images)
        as [(images' & E & _)
           |[(Hd & Hint & before & x & Himages & _)
            |(Hd & Hint & x & rest & Himages & _)]].
      * rewrite E in Hin. now apply not_In_None_map in Hin.
      * apply isInteger_numberOf in Hint. split; [|left; now split].
        rewrite Himages. now destruct before.
      * apply isInteger_numberOf in Hint. split; [|right; now split].
        rewrite Himages. discriminate.
    + intros (Hne & [(-> & ->)|(-> & ->)]).
      * destruct (last_split Hne) as (before & x & ->).
        rewrite Hpast. apply in_or_app. right. now left.
      * destruct images as [|x rest]; [contradiction|].
        rewrite Hbefore. now left.
  - intros Hno.
    destruct (moveImageAt_cases (numberOf index) direction images)
      as [Hsame
         |[(_ & _ & before & x & _ & E)|(_ & _ & x & rest & _ & E)]].
    + exact Hsame.
    + exfalso. apply Hno. rewrite E. apply in_or_app. right. now left.
    + exfalso. apply Hno. rewrite E. now left.
Qed.

(** X9. Moving an image right and then, from its new position, left again
    gives back the list as it was. *)
Theorem X9_moveImage_right_then_left idx images :
  S idx < List.length images ->
  exists images',
    moveImage idx right images = map Some images'
    /\ moveImage (S idx) left images' = map Some images.
Proof.
  intros Hlen.
  destruct (@two_neighbours images idx Hlen) as (before & x & y & after & -> & <-).
  exists (before ++ y :: x :: after).
  split; [apply moveImage_right_swap | apply moveImage_left_swap].
Qed.

(** X10. Whatever uploads, decoded sizes, removals and moves have happened,
    every image of the list still has the object URL, the name and the type
    of its own file, and that type is one [handleFiles] lets through. *)
Theorem X10_images_stay_what_was_uploaded images :
  reachable images ->
  Forall (fun img => fromItsFile img /\ validType (type img)) images.
Proof. apply reachable_images_from_files. Qed.

End Uploads.

(* ================================================================== *)
(** ** More about [generatePdf], for any reading of the numbers *)

Section MoreStructure.

Context {T : Type} `{JsNumber T}.

Implicit Types (settings : PdfSettings) (img : UploadedImage)
               (images : list UploadedImage).

(** X11. From upload to export: the writer is given, in the order of the
    list, the object URL of each image's own file, so the bytes it reads
    have the type the file was uploaded with; the format name passed along
    is 'PNG' for image/png and 'JPEG' for the three other valid types,
    image/webp among them. *)
Theorem X11_writer_gets_the_uploaded_files images settings pdf fname :
  reachable images ->
  saved (generatePdf (T:=T) images settings) = Some (pdf, fname) ->
  Forall2 (fun img d =>
             imageData d = createObjectURL (file img)
             /\ payloadType d = file_type (file img)
             /\ validType (payloadType d)
             /\ imageFormat d
                = if String.eqb (payloadType d) "image/png" then "PNG" else "JPEG")
          images (allDrawn pdf).
Proof.
  intros Hreach Hsaved. rewrite (generatePdf_allDrawn _ _ Hsaved).
  apply reachable_images_from_files in Hreach. clear Hsaved.
  induction Hreach as [|img rest ((Hurl & _ & Htype) & Hvalid) _ IH];
    cbn [map]; constructor; [|exact IH].
  unfold payloadType, drawn. cbn [imageData imageFormat].
  rewrite Hurl. cbn [blob]. rewrite <- Htype. repeat split. exact Hvalid.
Qed.

(** X12. On a standard page every image fit but CONTAIN (FILL, and ORIGINAL,
    which the code never looks at) stretches the image over the whole
    drawable area, whatever its pixel size: the rectangle starts at
    (margin, margin) and has the width and height of the drawable area. *)
Theorem X12_other_fits_fill_the_drawable_area images settings k img :
  nth_error images k = Some img ->
  pageSize settings <> FIT_IMAGE ->
  imageFit settings <> CONTAIN ->
  exists l,
    nth_error (output (generatePdf (T:=T) images settings)) k = Some l
    /\ imageX l = ofQ (margin settings)
    /\ imageY l = ofQ (margin settings)
    /\ imageWidthMm l = drawableWidth settings l
    /\ imageHeightMm l = drawableHeight settings l.
Proof.
  intros Himg Hstd Hfit. exists (layoutOf settings k img).
  rewrite generatePdf_output_nth, Himg. split; [reflexivity|].
  unfold imageX, imageY, imageWidthMm, imageHeightMm, drawableWidth,
    drawableHeight, pageWidthMm, pageHeightMm, layoutOf. cbn [setup rect].
  unfold placeImage. rewrite (isFitImage_false Hstd).
  destruct (imageFit settings); [contradiction| |]; repeat split.
Qed.

(** With a fixed orientation on a standard page the setup does not look at
    the image. *)
Lemma fixed_setup settings i j img1 img2 :
  pageSize settings <> FIT_IMAGE ->
  orientation settings <> AUTO ->
  setup (layoutOf (T:=T) settings i img1) = setup (layoutOf settings j img2).
Proof.
  intros Hstd Hfixed.
  unfold layoutOf, determineOrientation, pageDimensions. cbn [setup].
  destruct (pageSize settings); [| |contradiction];
    destruct (orientation settings); try contradiction; reflexivity.
Qed.

Lemma fixed_setup_format settings i img :
  pageSize settings <> FIT_IMAGE ->
  orientation settings <> AUTO ->
  targetFormat (setup (layoutOf (T:=T) settings i img))
  = FormatName (match pageSize settings with LETTER => "letter" | _ => "a4" end)
  /\ pageOrientation (setup (layoutOf (T:=T) settings i img))
     = match orientation settings with LANDSCAPE => O_l | _ => O_p end.
Proof.
  intros Hstd Hfixed.
  unfold layoutOf, determineOrientation, pageDimensions. cbn [setup].
  destruct (pageSize settings); [| |contradiction];
    destruct (orientation settings); try contradiction;
    cbn [isFitImage negb andb Orient_eqb pageWidth pageHeight];
    try match goal with |- context [if ?c then _ else _] => destruct c end;
    split; reflexivity.
Qed.

(** X13. With a fixed orientation (PORTRAIT or LANDSCAPE) on a standard
    page size the images play no part in the pages.  All layouts share one
    page setup, with the format of the page size ('a4' or 'letter'), the
    orientation asked for, and so one drawable area.  The saved document
    has one page per image; every page after the first is created with
    that format and orientation.  The first page has that orientation, and
    that format too, with one exception: for Letter in portrait it stays
    the 'a4' page the document was created with. *)
Theorem X13_fixed_orientation_gives_pages_alike images settings pdf fname :
  pageSize settings <> FIT_IMAGE ->
  orientation settings <> AUTO ->
  saved (generatePdf (T:=T) images settings) = Some (pdf, fname) ->
  exists (d : PageSetup T) (first : Page T) (later : list (Page T)),
    pdf = first :: later
    /\ List.length pdf = List.length images
    /\ targetFormat d
       = FormatName (match pageSize settings with
                     | LETTER => "letter" | _ => "a4" end)
    /\ pageOrientation d
       = match orientation settings with LANDSCAPE => O_l | _ => O_p end
    /\ Forall (fun l =>
                 setup l = d
                 /\ drawableWidth settings l
                    = sub (pageWidth d) (mul (ofQ (margin settings)) (ofQ 2))
                 /\ drawableHeight settings l
                    = sub (pageHeight d) (mul (ofQ (margin settings)) (ofQ 2)))
              (output (generatePdf (T:=T) images settings))
    /\ Forall (fun pg => page_format pg = targetFormat d
                         /\ page_orientation pg = pageOrientation d) later
    /\ page_orientation first = pageOrientation d
    /\ page_format first
       = match pageSize settings, orientation settings with
         | LETTER, PORTRAIT => FormatName "a4"
         | _, _ => targetFormat d
         end.
Proof.
  intros Hstd Hfixed Hsaved.
  destruct images as [|img rest]; [discriminate|].
  rewrite generatePdf_saved in Hsaved. injection Hsaved as <- _.
  set (d := setup (layoutOf (T:=T) settings 0 img)).
  destruct (@fixed_setup_format settings 0 img Hstd Hfixed) as (Hformat & Horient).
  fold d in Hformat, Horient.
  exists d, (firstPage settings img), (map (laterPage settings) rest).
  split; [reflexivity|].
  split; [cbn [List.length]; now rewrite length_map|].
  split; [exact Hformat|]. split; [exact Horient|]. split; [|split; [|split]].
  - rewrite generatePdf_output. apply Forall_forall. intros l Hin.
    apply in_map_iff in Hin. destruct Hin as ((k & img') & <- & _).
    cbn [fst snd].
    assert (E : setup (layoutOf (T:=T) settings k img') = d)
      by now apply fixed_setup.
    unfold drawableWidth, drawableHeight, pageWidthMm, pageHeightMm.
    rewrite E. repeat split.
  - apply Forall_forall. intros pg Hin. apply in_map_iff in Hin.
    destruct Hin as (img' & <- & _). unfold laterPage.
    cbn [page_format page_orientation].
    assert (E : setup (layoutOf (T:=T) settings 0 img') = d)
      by now apply fixed_setup.
    rewrite E. split; reflexivity.
  - unfold firstPage. cbn [page_orientation].
    now rewrite (isFitImage_false Hstd).
  - unfold firstPage. cbn [page_format]. rewrite (isFitImage_false Hstd).
    fold d. rewrite Horient, Hformat.
    destruct (pageSize settings); [| |contradiction];
      destruct (orientation settings); try contradiction; reflexivity.
Qed.

End MoreStructure.

(* ================================================================== *)
(** ** More about [generatePdf], in exact arithmetic *)

Section MoreExact.

Implicit Types (settings : PdfSettings) (img : UploadedImage)
               (images : list UploadedImage).

(** Scaling both sides by the pixel size keeps the comparison. *)
Lemma gt_scaled (n m : N) :
  gt (T:=exact) (mul (ofN n) pxToMm) (mul (ofN m) pxToMm) = (m <? n)%N.
Proof.
  assert (Vn : valued (QofN n * (264583 # 1000000)) (mul (T:=exact) (ofN n) pxToMm))
    by (apply valued_mul; [apply valued_ofN | apply valued_ofQ]).
  assert (Vm : valued (QofN m * (264583 # 1000000)) (mul (T:=exact) (ofN m) pxToMm))
    by (apply valued_mul; [apply valued_ofN | apply valued_ofQ]).
  destruct (m <? n)%N eqn:E.
  - apply (gt_valued Vn Vm). apply N.ltb_lt, QofN_lt in E. lra.
  - apply (gt_valued_false Vn Vm). apply N.ltb_ge in E.
    assert (~ (QofN m < QofN n)%Q) by (rewrite QofN_lt; lia). lra.
Qed.

(** X14. The page of the first image against the page a later image gets
    (the same image twice at the head of the list): they are created alike
    (same format, same orientation) except in two situations: Letter in
    portrait, where the first page stays the A4 page the document started
    with, and FIT_IMAGE with a fixed orientation that is not the shape of
    the image, where only the first page follows the image. *)
Theorem X14_first_page_like_the_later_ones settings img rest :
  exists first second pages fname,
    saved (generatePdf (T:=exact) (img :: img :: rest) settings)
    = Some (first :: second :: pages, fname)
    /\ (first = second <-> ~ firstPageDiffers settings img).
Proof.
  rewrite generatePdf_saved. cbn [map]. do 4 eexists. split; [reflexivity|].
  unfold firstPageDiffers, firstPage, laterPage, layoutOf, determineOrientation,
    pageDimensions. cbn [setup].
  rewrite gt_scaled.
  destruct (pageSize settings), (orientation settings);
    cbn [isFitImage negb andb Orient_eqb swapped oriented pageOrientation
         targetFormat pageWidth pageHeight];
    try rewrite gt_ofN;
    try (change (lt (T:=exact) A4_WIDTH A4_HEIGHT) with true);
    try (change (lt (T:=exact) LETTER_WIDTH LETTER_HEIGHT) with true);
    destruct (height img <? width img)%N eqn:E;
    cbn [isFitImage negb andb Orient_eqb swapped oriented pageOrientation
         targetFormat pageWidth pageHeight];
    (apply N.ltb_lt in E || apply N.ltb_ge in E);
    (split;
     [ intros Heq Hodd; try discriminate Heq;
       destruct Hodd as [(? & [?|(? & ?)])|(? & [(? & ?)|(? & ?)])];
       try discriminate; lia
     | intros Hnot; try reflexivity; exfalso; apply Hnot;
       first [ left; split; [reflexivity|]; first [left; reflexivity | right; split; [reflexivity|assumption] ]
             | right; split; [reflexivity|]; first [left; split; [reflexivity|assumption] | right; split; [reflexivity|assumption]] ] ]).
Qed.

Lemma sub_NaN (x : exact) : sub x NaN = NaN.
Proof. now destruct x. Qed.

Lemma mul_NaN (x : exact) : mul x NaN = NaN.
Proof. now destruct x. Qed.

Lemma add_NaN (x : exact) : add x NaN = NaN.
Proof. now destruct x. Qed.

(** X15. An image exported before its size is known (0 x 0) has the image
    ratio 0/0 = NaN; under CONTAIN on a standard page it takes the tall
    branch.  Its layout has x = NaN and width = NaN, with y = margin and
    the height of the drawable area, and these are the numbers of its
    [addImage] call, made with the object URL of the image: call [k] of the
    run, and the [k]-th image drawn in the saved document when all calls
    return.  A writer that tests the coordinates refuses the call, so with
    such a writer the run ends at this image or before it, nothing
    saved. *)
Theorem X15_unprobed_image_is_handed_over_without_a_place images settings k img :
  nth_error images k = Some img ->
  width img = 0%N -> height img = 0%N ->
  pageSize settings <> FIT_IMAGE ->
  imageFit settings = CONTAIN ->
  exists l d,
    nth_error (output (generatePdf (T:=exact) images settings)) k = Some l
    /\ imageRatio (T:=exact) img = NaN
    /\ imageX l = NaN
    /\ imageWidthMm l = NaN
    /\ imageY l = ofQ (margin settings)
    /\ imageHeightMm l = drawableHeight settings l
    /\ nth_error (addImageCalls images settings) k = Some d
    /\ (forall pdf fname,
          saved (generatePdf (T:=exact) images settings) = Some (pdf, fname) ->
          nth_error (allDrawn pdf) k = Some d)
    /\ imageData d = previewUrl img
    /\ dx d = NaN
    /\ dw d = NaN
    /\ dy d = ofQ (margin settings)
    /\ dh d = drawableHeight settings l
    /\ hasCoordinates d = false
    /\ exists i d',
         generatePdfWith hasCoordinates images settings = WriterThrew i d'
         /\ i <= k.
Proof.
  intros Himg HW HH Hstd Hfit.
  exists (layoutOf settings k img), (drawn img (rect (layoutOf settings 0 img))).
  rewrite generatePdf_output_nth, Himg. split; [reflexivity|].
  assert (Hcall : nth_error (addImageCalls (T:=exact) images settings) k
                  = Some (drawn img (rect (layoutOf settings 0 img)))).
  { unfold addImageCalls. rewrite nth_error_map, Himg. reflexivity. }
  assert (Hrect : forall i, rect (layoutOf (T:=exact) settings i img)
                  = {| x := NaN; y := ofQ (margin settings); w := NaN;
                       h := drawableHeight settings (layoutOf settings k img) |}).
  { intros i. unfold drawableHeight, pageHeightMm, layoutOf. cbn [setup rect].
    unfold placeImage. rewrite (isFitImage_false Hstd), Hfit, HW, HH.
    change (div (T:=exact) (ofN 0) (ofN 0)) with NaN.
    change (gt (T:=exact) NaN ?y) with false. cbv iota.
    rewrite mul_NaN, sub_NaN.
    change (div (T:=exact) NaN (ofQ 2)) with NaN. rewrite add_NaN.
    reflexivity. }
  assert (Hno : hasCoordinates (drawn img (rect (layoutOf settings 0 img))) = false).
  { unfold hasCoordinates, drawn. cbn [dx dy]. now rewrite Hrect. }
  assert (HL : imageRatio (T:=exact) img = NaN
               /\ imageX (layoutOf (T:=exact) settings k img) = NaN
               /\ imageWidthMm (layoutOf (T:=exact) settings k img) = NaN
               /\ imageY (layoutOf (T:=exact) settings k img) = ofQ (margin settings)
               /\ imageHeightMm (layoutOf (T:=exact) settings k img)
                  = drawableHeight settings (layoutOf (T:=exact) settings k img)).
  { unfold imageRatio, imageX, imageY, imageWidthMm, imageHeightMm.
    rewrite Hrect, HW, HH. cbn [x y w h]. repeat split. }
  assert (HD : imageData (drawn img (rect (layoutOf (T:=exact) settings 0 img)))
               = previewUrl img
               /\ dx (drawn img (rect (layoutOf (T:=exact) settings 0 img))) = NaN
               /\ dw (drawn img (rect (layoutOf (T:=exact) settings 0 img))) = NaN
               /\ dy (drawn img (rect (layoutOf (T:=exact) settings 0 img)))
                  = ofQ (margin settings)
               /\ dh (drawn img (rect (layoutOf (T:=exact) settings 0 img)))
                  = drawableHeight settings (layoutOf (T:=exact) settings k img)).
  { unfold drawn. cbn [imageData dx dy dw dh]. rewrite Hrect. cbn [x y w h].
    repeat split. }
  destruct HL as (L1 & L2 & L3 & L4 & L5).
  destruct HD as (D1 & D2 & D3 & D4 & D5).
  split; [exact L1|]. split; [exact L2|]. split; [exact L3|].
  split; [exact L4|]. split; [exact L5|].
  split; [exact Hcall|]. split.
  { intros pdf fname Hsaved. rewrite (generatePdf_allDrawn _ _ Hsaved).
    exact Hcall. }
  split; [exact D1|]. split; [exact D2|]. split; [exact D3|].
  split; [exact D4|]. split; [exact D5|].
  split; [exact Hno|].
  exact (@refused_call_ends_the_run _ _ hasCoordinates images settings k _ Hcall Hno).
Qed.

(** X16. [generatePdf] does not limit the margin.  On a standard page with
    a fit other than CONTAIN the width of the rectangle is non-negative
    exactly when twice the margin is at most the page width, and likewise
    for the height; the page is at least 210 mm each way. *)
Theorem X16_margin_must_fit_the_page images settings k img :
  nth_error images k = Some img ->
  pageSize settings <> FIT_IMAGE ->
  imageFit settings <> CONTAIN ->
  exists l pw ph,
    nth_error (output (generatePdf (T:=exact) images settings)) k = Some l
    /\ valued pw (pageWidthMm l) /\ valued ph (pageHeightMm l)
    /\ (210 <= pw)%Q /\ (210 <= ph)%Q
    /\ (Exact.ge (imageWidthMm l) (ofQ 0) = true
        <-> (margin settings * 2 <= pw)%Q)
    /\ (Exact.ge (imageHeightMm l) (ofQ 0) = true
        <-> (margin settings * 2 <= ph)%Q).
Proof.
  intros Himg Hstd Hfit.
  destruct (@standard_setup settings img Hstd) as (pw & ph & Vpw & Vph & Hpw & Hph).
  exists (layoutOf settings k img), pw, ph.
  rewrite generatePdf_output_nth, Himg. split; [reflexivity|].
  unfold imageWidthMm, imageHeightMm, pageWidthMm, pageHeightMm, layoutOf.
  cbn [setup rect].
  set (d := determineOrientation settings img (pageDimensions settings img)) in *.
  repeat (split; [assumption|]).
  assert (VdW : valued (pw - margin settings * 2)
                       (sub (pageWidth d) (mul (ofQ (margin settings)) (ofQ 2))))
    by (apply valued_sub; [assumption | apply valued_mul; apply valued_ofQ]).
  assert (VdH : valued (ph - margin settings * 2)
                       (sub (pageHeight d) (mul (ofQ (margin settings)) (ofQ 2))))
    by (apply valued_sub; [assumption | apply valued_mul; apply valued_ofQ]).
  unfold placeImage. rewrite (isFitImage_false Hstd).
  destruct (imageFit settings); [contradiction| |]; cbn [w h];
    (split; [rewrite (ge_valued VdW (valued_ofQ 0))
            |rewrite (ge_valued VdH (valued_ofQ 0))]; split; intros; lra).
Qed.

End MoreExact.

(* ================================================================== *)
(** ** The smart file name *)

Section SmartName.

Import Gemini.

Implicit Types (s t p : jsString) (c : N) (f : N -> bool).

Lemma dropWhile_suffix f s : exists p, s = p ++ dropWhile f s /\ Forall (fun c => f c = true) p.
Proof.
  induction s as [|c s (p & IH & Hp)]; [exists []; split; [reflexivity|constructor]|].
  cbn [dropWhile]. destruct (f c) eqn:E.
  - exists (c :: p). cbn [app]. split; [now rewrite <- IH | now constructor].
  - exists []. split; [reflexivity|constructor].
Qed.

Lemma dropWhile_head f s c rest : dropWhile f s = c :: rest -> f c = false.
Proof.
  induction s as [|c0 s IH]; cbn [dropWhile]; [discriminate|].
  destruct (f c0) eqn:E; [exact IH|]. now intros [= <- _].
Qed.

Lemma dropWhile_keeps f c rest : f c = false -> dropWhile f (c :: rest) = c :: rest.
Proof. intros E. cbn [dropWhile]. now rewrite E. Qed.

Lemma dropWhile_all f s : Forall (fun c => f c = true) s -> dropWhile f s = [].
Proof. induction 1 as [|c s E _ IH]; cbn [dropWhile]; [reflexivity|now rewrite E]. Qed.

Lemma dropWhile_pad f p s : Forall (fun c => f c = true) p -> dropWhile f (p ++ s) = dropWhile f s.
Proof. induction 1 as [|c p E _ IH]; cbn [dropWhile app]; [reflexivity|now rewrite E]. Qed.

Lemma trim_parts s :
  exists p q, s = p ++ trim s ++ q
              /\ Forall (fun c => isWhiteSpace c = true) p
              /\ Forall (fun c => isWhiteSpace c = true) q.
Proof.
  unfold trim.
  destruct (dropWhile_suffix isWhiteSpace s) as (p & Hs & Hp).
  destruct (dropWhile_suffix isWhiteSpace (rev (dropWhile isWhiteSpace s))) as (q & Hr & Hq).
  exists p, (rev q). split; [|split; [exact Hp | now apply Forall_rev]].
  rewrite <- rev_app_distr, <- Hr, rev_involutive. exact Hs.
Qed.

Lemma trim_trimmed s : trimmed (trim s).
Proof.
  split.
  - intros c rest E.
    destruct (dropWhile_suffix isWhiteSpace (rev (dropWhile isWhiteSpace s))) as (q & Hr & _).
    apply (f_equal (@rev N)) in Hr. rewrite rev_involutive, rev_app_distr in Hr.
    fold (trim s) in Hr. rewrite E in Hr. cbn [app] in Hr.
    apply (@dropWhile_head isWhiteSpace s c _ Hr).
  - intros c before E. unfold trim in E.
    apply (f_equal (@rev N)) in E. rewrite rev_involutive, rev_app_distr in E.
    cbn [rev app] in E. apply (@dropWhile_head isWhiteSpace _ c _ E).
Qed.

Lemma trim_of_trimmed s : trimmed s -> trim s = s.
Proof.
  intros (Hhead & Hlast). unfold trim.
  assert (E1 : dropWhile isWhiteSpace s = s).
  { destruct s as [|c rest]; [reflexivity|].
    apply dropWhile_keeps. now apply (Hhead c rest). }
  rewrite E1.
  destruct (rev s) as [|c r] eqn:Er; [now rewrite <- (rev_involutive s), Er|].
  rewrite dropWhile_keeps; [now rewrite <- Er, rev_involutive|].
  apply (Hlast c (rev r)). now rewrite <- (rev_involutive s), Er.
Qed.

Lemma trim_blank s : Forall (fun c => isWhiteSpace c = true) s -> trim s = [].
Proof. intros Hs. unfold trim. now rewrite (@dropWhile_all isWhiteSpace s Hs). Qed.

Lemma trim_pads p s q :
  Forall (fun c => isWhiteSpace c = true) p ->
  Forall (fun c => isWhiteSpace c = true) q ->
  trimmed s -> trim (p ++ s ++ q) = s.
Proof.
  intros Hp Hq Hs. destruct s as [|c rest].
  - cbn [app]. apply trim_blank, Forall_app. now split.
  - assert (Hc : isWhiteSpace c = false) by now apply (proj1 Hs c rest).
    unfold trim. rewrite (@dropWhile_pad isWhiteSpace p _ Hp).
    change ((c :: rest) ++ q) with (c :: rest ++ q).
    rewrite (dropWhile_keeps isWhiteSpace c (rest ++ q) Hc).
    change (c :: rest ++ q) with ((c :: rest) ++ q).
    rewrite rev_app_distr, (@dropWhile_pad isWhiteSpace (rev q) _ (Forall_rev Hq)).
    assert (E := trim_of_trimmed Hs). unfold trim in E.
    rewrite (dropWhile_keeps isWhiteSpace c rest Hc) in E. exact E.
Qed.

Lemma In_trim c s : In c (trim s) -> In c s.
Proof.
  intros Hin. destruct (trim_parts s) as (p & q & E & _). rewrite E.
  apply in_or_app. right. apply in_or_app. now left.
Qed.

Lemma In_trim_keeps c s : In c s -> isWhiteSpace c = false -> In c (trim s).
Proof.
  intros Hin Hc. destruct (trim_parts s) as (p & q & E & Hp & Hq).
  rewrite E in Hin. rewrite Forall_forall in Hp, Hq.
  apply in_app_or in Hin. destruct Hin as [Hin|Hin];
    [apply Hp in Hin; congruence|].
  apply in_app_or in Hin. destruct Hin as [Hin|Hin]; [exact Hin|].
  apply Hq in Hin; congruence.
Qed.

Lemma In_removeLeadingDot c s : In c (removeLeadingDot s) -> In c s.
Proof.
  destruct s as [|c0 rest]; [trivial|]. cbn [removeLeadingDot].
  destruct (N.eqb c0 dot); [now right | trivial].
Qed.

Lemma removeBackticks_clean s : ~ In backtick s -> removeBackticks s = s.
Proof.
  unfold removeBackticks. induction s as [|c s IH]; cbn [filter In]; [reflexivity|].
  intros Hnot. destruct (N.eqb_spec c backtick) as [E|E]; [tauto|].
  cbn [negb]. f_equal. apply IH. tauto.
Qed.

Lemma filenameFrom_text t s :
  trim t = s -> s <> [] ->
  filenameFrom (Some t) = trim (removeLeadingDot (removeBackticks s)).
Proof.
  intros E Hs. unfold filenameFrom. cbn [option_map]. rewrite E.
  destruct s; [contradiction | reflexivity].
Qed.

Lemma cleaned_cleanName s :
  cleanName s -> trim (removeLeadingDot (removeBackticks s)) = s.
Proof.
  intros (Hne & Hno & Htrim & Hdot).
  rewrite (removeBackticks_clean _ Hno).
  destruct s as [|c rest]; [contradiction|]. cbn [removeLeadingDot].
  destruct (N.eqb_spec c dot) as [E|E]; [subst c; now destruct (Hdot rest)|].
  now apply trim_of_trimmed.
Qed.

Lemma default_name_clean :
  ~ In backtick (units "document.pdf") /\ trimmed (units "document.pdf").
Proof.
  split; [vm_compute; intuition discriminate|].
  split; intros c rest E.
  - injection E as <- _. reflexivity.
  - assert (Hl : last (units "document.pdf") 0%N = c)
      by (rewrite E; apply last_last).
    rewrite <- Hl. reflexivity.
Qed.

Lemma filenameFrom_clean (responseText : option jsString) :
  ~ In backtick (filenameFrom responseText) /\ trimmed (filenameFrom responseText).
Proof.
  unfold filenameFrom.
  destruct (option_map trim responseText) as [[|c filename]|];
    [apply default_name_clean | | apply default_name_clean].
  split; [|apply trim_trimmed].
  intros Hin. apply In_trim, In_removeLeadingDot in Hin.
  unfold removeBackticks in Hin. apply filter_In in Hin.
  destruct Hin as (_ & Hne). now rewrite N.eqb_refl in Hne.
Qed.

Lemma backtick_not_blank : isWhiteSpace backtick = false.
Proof. reflexivity. Qed.

(** X17. A name [generateSmartFilename] returns never contains a backtick
    and never starts or ends with white space. *)
Theorem X17_smart_filename_is_clean API_KEY generateContent base64Image name :
  generateSmartFilename API_KEY generateContent base64Image = Returned name ->
  ~ In backtick name /\ trimmed name.
Proof.
  unfold generateSmartFilename.
  destruct (getAiClient API_KEY) as [ai|e]; [|discriminate].
  destruct (generateContent ai (requestFor base64Image)) as [responseText|e];
    [|discriminate].
  intros [= <-]. apply filenameFrom_clean.
Qed.

(** X18. A reply that is a clean file name (not empty, no backtick, no dot
    in front, no white space at the ends) is returned as it is, also when
    the model wrapped it in white space or in a pair of backticks. *)
Theorem X18_clean_name_passes_through s p q :
  cleanName s -> blank p -> blank q ->
  filenameFrom (Some (p ++ s ++ q)) = s
  /\ filenameFrom (Some (p ++ (backtick :: s ++ [backtick]) ++ q)) = s.
Proof.
  intros Hs Hp Hq. assert (Hs' := Hs).
  destruct Hs' as (Hne & Hno & Htrim & Hdot). split.
  - rewrite (@filenameFrom_text _ s (trim_pads Hp Hq Htrim) Hne).
    now apply cleaned_cleanName.
  - assert (Hw : trimmed (backtick :: s ++ [backtick])).
    { split.
      - now intros c rest [= <- _].
      - intros c before E.
        change (backtick :: s ++ [backtick]) with ((backtick :: s) ++ [backtick]) in E.
        apply app_inj_tail in E. now destruct E as (_ & <-). }
    rewrite (@filenameFrom_text _ _ (trim_pads Hp Hq Hw)) by discriminate.
    assert (E : removeBackticks (backtick :: s ++ [backtick]) = removeBackticks s).
    { unfold removeBackticks. cbn [filter]. rewrite N.eqb_refl. cbn [negb].
      rewrite filter_app. cbn [filter]. rewrite N.eqb_refl. cbn [negb].
      now rewrite app_nil_r. }
    rewrite E. now apply cleaned_cleanName.
Qed.

(** X19. Without a text in the response, or with white space only, the
    name is document.pdf. *)
Theorem X19_no_text_gives_document_pdf (responseText : option jsString) :
  (responseText = None \/ exists t, responseText = Some t /\ blank t) ->
  filenameFrom responseText = units "document.pdf".
Proof.
  intros [->|(t & -> & Ht)]; [reflexivity|].
  unfold filenameFrom. cbn [option_map]. now rewrite (trim_blank Ht).
Qed.

(** X20. The fallback is decided before the cleaning: a reply made of
    backticks and white space, with at least one backtick, gives the empty
    name, not document.pdf. *)
Theorem X20_backticks_alone_give_the_empty_name t :
  Forall (fun c => c = backtick \/ isWhiteSpace c = true) t ->
  In backtick t ->
  filenameFrom (Some t) = [].
Proof.
  intros Hall Hin.
  assert (Hkept := In_trim_keeps backtick t Hin backtick_not_blank).
  assert (Hne : trim t <> []) by (intros E; now rewrite E in Hkept).
  rewrite (@filenameFrom_text t _ eq_refl Hne).
  assert (Hblank : blank (removeBackticks (trim t))).
  { apply Forall_forall. intros c0 Hc0. unfold removeBackticks in Hc0.
    apply filter_In in Hc0. destruct Hc0 as (Hc0 & Hne0).
    apply In_trim in Hc0.
    rewrite Forall_forall in Hall. destruct (Hall c0 Hc0) as [->|Hw];
      [now rewrite N.eqb_refl in Hne0 | exact Hw]. }
  destruct (removeBackticks (trim t)) as [|c0 u] eqn:Eu; [reflexivity|].
  cbn [removeLeadingDot]. destruct (N.eqb_spec c0 dot) as [Ec|Ec].
  - subst c0. inversion Hblank as [|? ? Hdot _]. discriminate Hdot.
  - now apply trim_blank.
Qed.

(** X21. Without an API key (undefined or empty) the call throws the
    missing-key error, whatever the service would answer; an error of the
    service is thrown on as it is; a name is returned only for a response
    of the service, and is then what the cleaning makes of its text. *)
Theorem X21_errors_are_passed_on API_KEY generateContent base64Image :
  ((API_KEY = None \/ API_KEY = Some []) ->
   generateSmartFilename API_KEY generateContent base64Image
   = Thrown "API Key is missing. Please set the API_KEY environment variable.")
  /\ (forall ai e,
        getAiClient API_KEY = Returned ai ->
        generateContent ai (requestFor base64Image) = Thrown e ->
        generateSmartFilename API_KEY generateContent base64Image = Thrown e)
  /\ (forall name,
        generateSmartFilename API_KEY generateContent base64Image = Returned name ->
        exists responseText,
          generateContent (match API_KEY with Some k => k | None => [] end)
                          (requestFor base64Image)
          = Returned responseText
          /\ name = filenameFrom responseText).
Proof.
  unfold generateSmartFilename. split; [|split].
  - intros [->| ->]; reflexivity.
  - intros ai e -> ->. reflexivity.
  - intros name. destruct API_KEY as [[|c key]|]; cbn [getAiClient]; try discriminate.
    destruct (generateContent (c :: key) (requestFor base64Image)) as [r|e];
      [|discriminate].
    intros [= <-]. now exists r.
Qed.

(** X22. For a file [handleFiles] lets through, read as a data URL, the
    request carries the MIME type of the file and the bare base64 data. *)
Theorem X22_request_for_an_uploaded_file (f : File) (base64 : jsString) :
  validType (file_type f) ->
  mimeType (requestFor (readAsDataURL f base64)) = units (file_type f)
  /\ data (requestFor (readAsDataURL f base64)) = base64.
Proof.
  unfold readAsDataURL.
  intros [E|[E|[E|E]]]; rewrite E; split; reflexivity.
Qed.

Lemma stripPrefix_app p s : stripPrefix p (p ++ s) = Some s.
Proof. induction p as [|c p IH]; cbn; [reflexivity|]. now rewrite N.eqb_refl. Qed.

Lemma takeWhile_letters s c rest :
  letters s -> isLetter c = false ->
  takeWhile isLetter (s ++ c :: rest) = s
  /\ dropWhile isLetter (s ++ c :: rest) = c :: rest.
Proof.
  intros Hs Hc. induction Hs as [|c0 s E _ (IHt & IHd)]; cbn [app takeWhile dropWhile].
  - now rewrite Hc.
  - rewrite E. now rewrite IHt, IHd.
Qed.

(** Two runs of letters, each closed by a semicolon: the first is a prefix
    of the second only when the runs are the same. *)
Lemma stripPrefix_letters (a b x y : jsString) :
  letters a -> letters b ->
  stripPrefix (a ++ 59%N :: x) (b ++ 59%N :: y)
  = if eqb a b then stripPrefix x y else None.
Proof.
  intros Ha. revert b. induction Ha as [|c a Ec _ IH]; intros b Hb.
  - destruct Hb as [|c' b Ec' _]; cbn [app stripPrefix eqb].
    + reflexivity.
    + destruct (N.eqb_spec 59 c') as [<-|_]; [discriminate Ec' | reflexivity].
  - destruct Hb as [|c' b Ec' Hb]; cbn [app stripPrefix eqb].
    + destruct (N.eqb_spec c 59) as [->|_]; [discriminate Ec | reflexivity].
    + destruct (N.eqb c c'); [now apply IH | reflexivity].
Qed.

Lemma jsString_eqb_eq (a b : jsString) : eqb a b = true <-> a = b.
Proof.
  revert b. induction a as [|x a IH]; intros [|y b]; cbn [eqb];
    try (split; [discriminate | discriminate]); [tauto|].
  rewrite andb_true_iff, N.eqb_eq, IH. split; [intros (-> & ->); reflexivity|].
  intros [= -> ->]. tauto.
Qed.

Lemma removeDataPrefix_letters (alternatives : list string) subtype base64 :
  Forall (fun alt => letters (units alt)) alternatives ->
  letters subtype ->
  removeDataPrefix alternatives (imageDataUrl subtype base64)
  = if existsb (fun alt => eqb (units alt) subtype) alternatives
    then base64 else imageDataUrl subtype base64.
Proof.
  intros Halts Hsub. induction Halts as [|alt others Halt _ IH];
    cbn [removeDataPrefix existsb]; [reflexivity|].
  unfold imageDataUrl at 1.
  assert (E : forall z, stripPrefix (units "data:image/" ++ z) (units "data:image/" ++ subtype ++ units ";base64," ++ base64) = stripPrefix z (subtype ++ units ";base64," ++ base64)).
  { intros z. vm_compute (units "data:image/"). cbn [app stripPrefix].
    now rewrite !N.eqb_refl. }
  rewrite E.
  change (units ";base64,") with (59%N :: units "base64,").
  cbn [app]. rewrite (stripPrefix_letters _ _ Halt Hsub), stripPrefix_app.
  destruct (eqb (units alt) subtype); [reflexivity|]. exact IH.
Qed.

(** X23. For a data URL of any image subtype written in letters, the MIME
    type of the request is that subtype; the data URL prefix is removed from
    the data only for png, jpeg, jpg and webp, and for every other subtype
    (gif, say) the data is the whole data URL. *)
Theorem X23_subtype_is_read_but_not_always_removed subtype base64 :
  subtype <> [] -> letters subtype ->
  mimeType (requestFor (imageDataUrl subtype base64)) = units "image/" ++ subtype
  /\ (In subtype (map units ["png"; "jpeg"; "jpg"; "webp"]) ->
      data (requestFor (imageDataUrl subtype base64)) = base64)
  /\ (~ In subtype (map units ["png"; "jpeg"; "jpg"; "webp"]) ->
      data (requestFor (imageDataUrl subtype base64))
      = imageDataUrl subtype base64).
Proof.
  intros Hne Hsub.
  assert (Hdata : data (requestFor (imageDataUrl subtype base64))
                  = if existsb (fun alt => eqb (units alt) subtype)
                               ["png"; "jpeg"; "jpg"; "webp"]
                    then base64 else imageDataUrl subtype base64).
  { cbn [requestFor data]. unfold cleanBase64.
    apply removeDataPrefix_letters; [|exact Hsub].
    repeat constructor. }
  split; [|split].
  - cbn [requestFor mimeType]. unfold mimeMatch, imageDataUrl.
    rewrite stripPrefix_app.
    change (units ";base64,") with (59%N :: units "base64,"). cbn [app].
    destruct (@takeWhile_letters subtype 59%N (units "base64," ++ base64)
                Hsub eq_refl) as (-> & ->).
    change (59%N :: units "base64," ++ base64)
      with (units ";base64," ++ base64).
    rewrite stripPrefix_app. destruct subtype; [contradiction | reflexivity].
  - intros Hin. rewrite Hdata.
    replace (existsb _ _) with true; [reflexivity|].
    symmetry. apply existsb_exists. apply in_map_iff in Hin.
    destruct Hin as (alt & <- & Hin). exists alt. split; [exact Hin|].
    now apply jsString_eqb_eq.
  - intros Hnot. rewrite Hdata.
    replace (existsb _ _) with false; [reflexivity|].
    symmetry. apply not_true_iff_false. intros Hex. apply Hnot.
    apply existsb_exists in Hex. destruct Hex as (alt & Hin & Heq).
    apply jsString_eqb_eq in Heq. subst subtype. now apply in_map.
Qed.

End SmartName.

(* ================================================================== *)
(** ** The further theorems with hypotheses, at concrete inputs *)

(** X4 at the second image of [uploaded_pair]. *)
Lemma X4_witness :
  (NoDup (map id uploaded_pair)
   /\ nth_error uploaded_pair 1 = Some (newImage "b2" (fileOf "image/webp")))
  /\ onload (id (newImage "b2" (fileOf "image/webp"))) 640 480 uploaded_pair
     = firstn 1 uploaded_pair
       ++ resized 640 480 (newImage "b2" (fileOf "image/webp"))
       :: skipn 2 uploaded_pair.
Proof.
  assert (Hnd : NoDup (map id uploaded_pair)).
  { repeat constructor; simpl; intuition discriminate. }
  split; [split; [exact Hnd | reflexivity]|].
  apply (@X4_onload_with_distinct_ids uploaded_pair 1
           (newImage "b2" (fileOf "image/webp")) 640%N 480%N Hnd).
  reflexivity.
Defined.

(** X6 at the first image of [uploaded_pair]. *)
Lemma X6_witness :
  (NoDup (map id uploaded_pair)
   /\ nth_error uploaded_pair 0 = Some (newImage "a1" (fileOf "image/png")))
  /\ removeImage (id (newImage "a1" (fileOf "image/png"))) uploaded_pair
     = {| revoked := Some (previewUrl (newImage "a1" (fileOf "image/png")));
          remaining := firstn 0 uploaded_pair ++ skipn 1 uploaded_pair |}.
Proof.
  assert (Hnd : NoDup (map id uploaded_pair)).
  { repeat constructor; simpl; intuition discriminate. }
  split; [split; [exact Hnd | reflexivity]|].
  apply (@X6_removeImage_with_distinct_ids uploaded_pair 0
           (newImage "a1" (fileOf "image/png")) Hnd).
  reflexivity.
Defined.

(** X9 at the first position of [uploaded_pair]. *)
Lemma X9_witness :
  1 < List.length uploaded_pair
  /\ exists images',
       moveImage 0 right uploaded_pair = map Some images'
       /\ moveImage 1 left images' = map Some uploaded_pair.
Proof.
  assert (Hlen : 1 < List.length uploaded_pair) by (simpl; lia).
  split; [exact Hlen|].
  apply (@X9_moveImage_right_then_left 0 uploaded_pair Hlen).
Defined.

(** X10 at [webp_images]: one upload, then the decoded size. *)
Lemma X10_witness :
  reachable webp_images
  /\ Forall (fun img => fromItsFile img /\ validType (type img)) webp_images.
Proof.
  assert (Hreach : reachable webp_images).
  { change webp_images
      with (onload "k3x9" 800 600
              (handleUpload (fun _ => "k3x9") [] [fileOf "image/webp"])).
    apply reach_onload.
    apply (reach_upload (fun _ => "k3x9") [fileOf "image/webp"] reach_start).
    reflexivity. }
  split; [exact Hreach|].
  apply (@X10_images_stay_what_was_uploaded webp_images Hreach).
Defined.

(** X11 at [webp_images] with the default settings. *)
Lemma X11_witness :
  reachable webp_images
  /\ exists pdf fname,
       saved (generatePdf (T:=exact) webp_images DEFAULT_SETTINGS)
       = Some (pdf, fname)
       /\ Forall2 (fun img d =>
                     imageData d = createObjectURL (file img)
                     /\ payloadType d = file_type (file img)
                     /\ validType (payloadType d)
                     /\ imageFormat d
                        = if String.eqb (payloadType d) "image/png"
                          then "PNG" else "JPEG")
                  webp_images (allDrawn pdf).
Proof.
  assert (Hreach : reachable webp_images).
  { change webp_images
      with (onload "k3x9" 800 600
              (handleUpload (fun _ => "k3x9") [] [fileOf "image/webp"])).
    apply reach_onload.
    apply (reach_upload (fun _ => "k3x9") [fileOf "image/webp"] reach_start).
    reflexivity. }
  split; [exact Hreach|].
  do 2 eexists. split; [reflexivity|].
  eapply (@X11_writer_gets_the_uploaded_files exact exact_number webp_images
            DEFAULT_SETTINGS _ _ Hreach).
  reflexivity.
Defined.

(** X12 at the scenario image with the FILL fit. *)
Lemma X12_witness :
  (nth_error [scenario_image] 0 = Some scenario_image
   /\ pageSize (settingsOf A4 PORTRAIT 10 FILL) <> FIT_IMAGE
   /\ imageFit (settingsOf A4 PORTRAIT 10 FILL) <> CONTAIN)
  /\ exists l,
       nth_error (output (generatePdf (T:=exact) [scenario_image]
                            (settingsOf A4 PORTRAIT 10 FILL))) 0 = Some l
       /\ imageX l = ofQ (margin (settingsOf A4 PORTRAIT 10 FILL))
       /\ imageY l = ofQ (margin (settingsOf A4 PORTRAIT 10 FILL))
       /\ imageWidthMm l = drawableWidth (settingsOf A4 PORTRAIT 10 FILL) l
       /\ imageHeightMm l = drawableHeight (settingsOf A4 PORTRAIT 10 FILL) l.
Proof.
  assert (Hstd : pageSize (settingsOf A4 PORTRAIT 10 FILL) <> FIT_IMAGE)
    by discriminate.
  assert (Hfit : imageFit (settingsOf A4 PORTRAIT 10 FILL) <> CONTAIN)
    by discriminate.
  split; [split; [reflexivity | split; [exact Hstd | exact Hfit]]|].
  apply (@X12_other_fits_fill_the_drawable_area exact exact_number
           [scenario_image] (settingsOf A4 PORTRAIT 10 FILL) 0 scenario_image
           eq_refl Hstd Hfit).
Defined.

(** X13 at two images on Letter in portrait. *)
Lemma X13_witness :
  exists pdf fname,
    (pageSize (settingsOf LETTER PORTRAIT 10 CONTAIN) <> FIT_IMAGE
     /\ orientation (settingsOf LETTER PORTRAIT 10 CONTAIN) <> AUTO
     /\ saved (generatePdf (T:=exact)
                 [scenario_image; imageOf "image/png" 512 512]
                 (settingsOf LETTER PORTRAIT 10 CONTAIN))
        = Some (pdf, fname))
    /\ exists (d : PageSetup exact) first later,
         pdf = first :: later
         /\ List.length pdf
            = List.length [scenario_image; imageOf "image/png" 512 512]
         /\ targetFormat d = FormatName "letter"
         /\ pageOrientation d = O_p
         /\ Forall (fun l =>
                      setup l = d
                      /\ drawableWidth (settingsOf LETTER PORTRAIT 10 CONTAIN) l
                         = sub (pageWidth d) (mul (ofQ 10) (ofQ 2))
                      /\ drawableHeight (settingsOf LETTER PORTRAIT 10 CONTAIN) l
                         = sub (pageHeight d) (mul (ofQ 10) (ofQ 2)))
                   (output (generatePdf (T:=exact)
                              [scenario_image; imageOf "image/png" 512 512]
                              (settingsOf LETTER PORTRAIT 10 CONTAIN)))
         /\ Forall (fun pg => page_format pg = targetFormat d
                              /\ page_orientation pg = pageOrientation d) later
         /\ page_orientation first = pageOrientation d
         /\ page_format first = FormatName "a4".
Proof.
  assert (Hstd : pageSize (settingsOf LETTER PORTRAIT 10 CONTAIN) <> FIT_IMAGE)
    by discriminate.
  assert (Hfixed : orientation (settingsOf LETTER PORTRAIT 10 CONTAIN) <> AUTO)
    by discriminate.
  do 2 eexists. split; [split; [exact Hstd | split; [exact Hfixed | reflexivity]]|].
  eapply (@X13_fixed_orientation_gives_pages_alike exact exact_number
            [scenario_image; imageOf "image/png" 512 512]
            (settingsOf LETTER PORTRAIT 10 CONTAIN) _ _ Hstd Hfixed).
  reflexivity.
Defined.

(** X15 at a file just dropped on the page, with the default settings. *)
Lemma X15_witness :
  (nth_error unprobed_images 0 = Some (newImage "k3x9" (fileOf "image/jpeg"))
   /\ width (newImage "k3x9" (fileOf "image/jpeg")) = 0%N
   /\ height (newImage "k3x9" (fileOf "image/jpeg")) = 0%N
   /\ pageSize DEFAULT_SETTINGS <> FIT_IMAGE
   /\ imageFit DEFAULT_SETTINGS = CONTAIN)
  /\ exists l d,
       nth_error (output (generatePdf (T:=exact) unprobed_images
                            DEFAULT_SETTINGS)) 0 = Some l
       /\ imageRatio (T:=exact) (newImage "k3x9" (fileOf "image/jpeg")) = NaN
       /\ imageX l = NaN
       /\ imageWidthMm l = NaN
       /\ imageY l = ofQ (margin DEFAULT_SETTINGS)
       /\ imageHeightMm l = drawableHeight DEFAULT_SETTINGS l
       /\ nth_error (addImageCalls unprobed_images DEFAULT_SETTINGS) 0 = Some d
       /\ (forall pdf fname,
             saved (generatePdf (T:=exact) unprobed_images DEFAULT_SETTINGS)
             = Some (pdf, fname) ->
             nth_error (allDrawn pdf) 0 = Some d)
       /\ imageData d = previewUrl (newImage "k3x9" (fileOf "image/jpeg"))
       /\ dx d = NaN
       /\ dw d = NaN
       /\ dy d = ofQ (margin DEFAULT_SETTINGS)
       /\ dh d = drawableHeight DEFAULT_SETTINGS l
       /\ hasCoordinates d = false
       /\ exists i d',
            generatePdfWith hasCoordinates unprobed_images DEFAULT_SETTINGS
            = WriterThrew i d'
            /\ i <= 0.
Proof.
  assert (Hstd : pageSize DEFAULT_SETTINGS <> FIT_IMAGE) by discriminate.
  split; [repeat split; exact Hstd|].
  apply (@X15_unprobed_image_is_handed_over_without_a_place unprobed_images
           DEFAULT_SETTINGS 0 (newImage "k3x9" (fileOf "image/jpeg"))
           eq_refl eq_refl eq_refl Hstd eq_refl).
Defined.

(** X16 at a margin of 120 mm on portrait A4, too wide for the page. *)
Lemma X16_witness :
  (nth_error [scenario_image] 0 = Some scenario_image
   /\ pageSize (settingsOf A4 PORTRAIT 120 FILL) <> FIT_IMAGE
   /\ imageFit (settingsOf A4 PORTRAIT 120 FILL) <> CONTAIN)
  /\ exists l pw ph,
       nth_error (output (generatePdf (T:=exact) [scenario_image]
                            (settingsOf A4 PORTRAIT 120 FILL))) 0 = Some l
       /\ valued pw (pageWidthMm l) /\ valued ph (pageHeightMm l)
       /\ (210 <= pw)%Q /\ (210 <= ph)%Q
       /\ (Exact.ge (imageWidthMm l) (ofQ 0) = true
           <-> (margin (settingsOf A4 PORTRAIT 120 FILL) * 2 <= pw)%Q)
       /\ (Exact.ge (imageHeightMm l) (ofQ 0) = true
           <-> (margin (settingsOf A4 PORTRAIT 120 FILL) * 2 <= ph)%Q).
Proof.
  assert (Hstd : pageSize (settingsOf A4 PORTRAIT 120 FILL) <> FIT_IMAGE)
    by discriminate.
  assert (Hfit : imageFit (settingsOf A4 PORTRAIT 120 FILL) <> CONTAIN)
    by discriminate.
  split; [split; [reflexivity | split; [exact Hstd | exact Hfit]]|].
  apply (@X16_margin_must_fit_the_page [scenario_image]
           (settingsOf A4 PORTRAIT 120 FILL) 0 scenario_image
           eq_refl Hstd Hfit).
Defined.

(** X17 at a reply wrapped in backticks and spaces. *)
Lemma X17_witness :
  Gemini.generateSmartFilename (Some (Gemini.units "key")) chatty_service
    (Gemini.units "data:image/png;base64,iVBORw0KGgo=")
  = Gemini.Returned (Gemini.units "scan_2024.pdf")
  /\ ~ In Gemini.backtick (Gemini.units "scan_2024.pdf")
  /\ trimmed (Gemini.units "scan_2024.pdf").
Proof.
  assert (Hrun : Gemini.generateSmartFilename (Some (Gemini.units "key"))
                   chatty_service
                   (Gemini.units "data:image/png;base64,iVBORw0KGgo=")
                 = Gemini.Returned (Gemini.units "scan_2024.pdf"))
    by reflexivity.
  split; [exact Hrun|].
  apply (@X17_smart_filename_is_clean (Some (Gemini.units "key"))
           chatty_service
           (Gemini.units "data:image/png;base64,iVBORw0KGgo=")
           (Gemini.units "scan_2024.pdf") Hrun).
Defined.

(** X18 at the name report.pdf, after a space and before a line feed. *)
Lemma X18_witness :
  (cleanName (Gemini.units "report.pdf") /\ blank [32%N] /\ blank [10%N])
  /\ Gemini.filenameFrom
       (Some ([32%N] ++ Gemini.units "report.pdf" ++ [10%N]))
     = Gemini.units "report.pdf"
  /\ Gemini.filenameFrom
       (Some ([32%N]
              ++ (Gemini.backtick
                  :: Gemini.units "report.pdf" ++ [Gemini.backtick])
              ++ [10%N]))
     = Gemini.units "report.pdf".
Proof.
  assert (Hclean : cleanName (Gemini.units "report.pdf")).
  { split; [discriminate|]. split; [vm_compute; intuition discriminate|].
    split; [|discriminate].
    change (Gemini.units "report.pdf")
      with (Gemini.trim (Gemini.units "report.pdf")).
    apply trim_trimmed. }
  assert (Hp : blank [32%N]) by (repeat constructor).
  assert (Hq : blank [10%N]) by (repeat constructor).
  split; [split; [exact Hclean | split; [exact Hp | exact Hq]]|].
  apply (@X18_clean_name_passes_through (Gemini.units "report.pdf")
           [32%N] [10%N] Hclean Hp Hq).
Defined.

(** X19 at a reply of a space and a tab. *)
Lemma X19_witness :
  (Some [32%N; 9%N] = None
   \/ exists t, Some [32%N; 9%N] = Some t /\ blank t)
  /\ Gemini.filenameFrom (Some [32%N; 9%N]) = Gemini.units "document.pdf".
Proof.
  assert (Hblank : Some [32%N; 9%N] = None
                   \/ exists t, Some [32%N; 9%N] = Some t /\ blank t).
  { right. exists [32%N; 9%N]. split; [reflexivity | repeat constructor]. }
  split; [exact Hblank|].
  apply (@X19_no_text_gives_document_pdf (Some [32%N; 9%N]) Hblank).
Defined.

(** X20 at a reply of two backticks around a space. *)
Lemma X20_witness :
  (Forall (fun c => c = Gemini.backtick \/ Gemini.isWhiteSpace c = true)
          [96%N; 32%N; 96%N]
   /\ In Gemini.backtick [96%N; 32%N; 96%N])
  /\ Gemini.filenameFrom (Some [96%N; 32%N; 96%N]) = [].
Proof.
  assert (Hall : Forall (fun c => c = Gemini.backtick
                                  \/ Gemini.isWhiteSpace c = true)
                        [96%N; 32%N; 96%N]).
  { repeat constructor; (now left) || (now right). }
  assert (Hin : In Gemini.backtick [96%N; 32%N; 96%N]) by (now left).
  split; [split; [exact Hall | exact Hin]|].
  apply (@X20_backticks_alone_give_the_empty_name [96%N; 32%N; 96%N] Hall Hin).
Defined.

(** X22 at a WebP file. *)
Lemma X22_witness :
  validType (file_type (fileOf "image/webp"))
  /\ Gemini.mimeType
       (Gemini.requestFor
          (Gemini.readAsDataURL (fileOf "image/webp") (Gemini.units "UklGRg==")))
     = Gemini.units (file_type (fileOf "image/webp"))
  /\ Gemini.data
       (Gemini.requestFor
          (Gemini.readAsDataURL (fileOf "image/webp") (Gemini.units "UklGRg==")))
     = Gemini.units "UklGRg==".
Proof.
  assert (Hvalid : validType (file_type (fileOf "image/webp")))
    by (right; right; left; reflexivity).
  split; [exact Hvalid|].
  apply (@X22_request_for_an_uploaded_file (fileOf "image/webp")
           (Gemini.units "UklGRg==") Hvalid).
Defined.

(** X23 at a GIF data URL. *)
Lemma X23_witness :
  (Gemini.units "gif" <> [] /\ letters (Gemini.units "gif"))
  /\ Gemini.mimeType
       (Gemini.requestFor (imageDataUrl (Gemini.units "gif") (Gemini.units "R0lGOD")))
     = Gemini.units "image/" ++ Gemini.units "gif"
  /\ (In (Gemini.units "gif")
         (map Gemini.units ["png"; "jpeg"; "jpg"; "webp"]) ->
      Gemini.data
        (Gemini.requestFor (imageDataUrl (Gemini.units "gif") (Gemini.units "R0lGOD")))
      = Gemini.units "R0lGOD")
  /\ (~ In (Gemini.units "gif")
           (map Gemini.units ["png"; "jpeg"; "jpg"; "webp"]) ->
      Gemini.data
        (Gemini.requestFor (imageDataUrl (Gemini.units "gif") (Gemini.units "R0lGOD")))
      = imageDataUrl (Gemini.units "gif") (Gemini.units "R0lGOD")).
Proof.
  assert (Hne : Gemini.units "gif" <> []) by discriminate.
  assert (Hletters : letters (Gemini.units "gif")) by (repeat constructor).
  split; [split; [exact Hne | exact Hletters]|].
  apply (@X23_subtype_is_read_but_not_always_removed (Gemini.units "gif")
           (Gemini.units "R0lGOD") Hne Hletters).
Defined.
